(** * Tool-to-capability adaptation layer of the GOAT/OpenServ agent drivers

    A shallow embedding of the four driver scripts of the repository
    (the DexScreener driver, the swap driver, the Allora driver and the
    CoinGecko driver printed in the README) together with the fragment of
    JavaScript they rely on: dynamically typed values, exceptions, the
    [Map] used as tool registry, [String.prototype.replace] with the
    global pattern [/\./g], [typeof], [toString] and [JSON.stringify]
    with a two-space indent.

    Part I holds the definitions, Part II the theorems. *)

From Stdlib Require Import ZArith Ascii String List Bool Lia.
From Stdlib Require Import Decimal DecimalString DecimalFacts DecimalN DecimalPos.
From stdpp Require Import base option gmap strings list.

#[local] Arguments String.append : simpl nomatch.
#[local] Arguments String.eqb : simpl never.
Set Warnings "-register-all".

(* ===================================================================== *)
(** * Part I. The embedding                                              *)
(* ===================================================================== *)

(** ** JavaScript values *)

Module Js.

(** Numbers.  A finite double other than zero is held by the decimal
    numeral [Number::toString] prints for it: the sign, the digits [s]
    of the shortest numeral that denotes the double (no zero at either
    end), and the position [n] of the decimal point, for the value
    [0.s * 10^n].  [NZero] is [+0]; a negative zero is outside the
    model. *)
Inductive JsNumber : Type :=
| NZero
| NDec (negative : bool) (s : list digits) (n : Z)
| NNaN
| NInfinity (negative : bool).

(** Values are plain data: [undefined], [null], booleans, numbers,
    strings, and arrays and objects of own data properties, with no
    methods (so no [toJSON] and no [toString] of their own), no cycles,
    and no functions, symbols or BigInts.  Strings are sequences of code
    units; the model keeps the code units below 256, which is what
    [string] holds. *)
Inductive JsValue : Type :=
| JUndefined
| JNull
| JBool (b : bool)
| JNum (n : JsNumber)
| JStr (s : string)
| JArr (elems : list JsValue)
| JObj (props : list (string * JsValue)).

(** What a [throw] carries: an [Error] instance (of any subclass) with
    its [message], or any other value. *)
Inductive Thrown : Type :=
| JsError (message : string)
| JsThrow (v : JsValue).

(** The outcome of an awaited operation.  [Pending] is a promise that
    never settles: the drivers impose no timeout. *)
Inductive Completion (A : Type) : Type :=
| Normal (a : A)
| Throw (e : Thrown)
| Pending.
Arguments Normal {A} a.
Arguments Throw {A} e.
Arguments Pending {A}.

(** [typeof v] *)
Definition typeof (v : JsValue) : string :=
  match v with
  | JUndefined => "undefined"
  | JNull => "object"
  | JBool _ => "boolean"
  | JNum _ => "number"
  | JStr _ => "string"
  | JArr _ => "object"
  | JObj _ => "object"
  end.

(** Truthiness, as used by [&&], [||], [!] and [?:]. *)
Definition truthy (v : JsValue) : bool :=
  match v with
  | JUndefined | JNull => false
  | JBool b => b
  | JNum NZero => false
  | JNum (NDec _ _ _) => true
  | JNum NNaN => false
  | JNum (NInfinity _) => true
  | JStr s => negb (String.eqb s EmptyString)
  | JArr _ | JObj _ => true
  end.

(** Decimal numeral of a natural number. *)
Definition string_of_N (n : N) : string :=
  NilZero.string_of_uint (N.to_uint n).

Definition digit_char (d : digits) : ascii :=
  match d with
  | d0 => "0" | d1 => "1" | d2 => "2" | d3 => "3" | d4 => "4"
  | d5 => "5" | d6 => "6" | d7 => "7" | d8 => "8" | d9 => "9"
  end%char.

Fixpoint string_of_digits (s : list digits) : string :=
  match s with
  | [] => EmptyString
  | d :: rest => String (digit_char d) (string_of_digits rest)
  end.

Definition zeros (n : Z) : list digits := replicate (Z.to_nat n) d0.

(** [Number::toString] of the positive number with the [k] digits [s]
    and the decimal point at [n]: the digits with zeros after them
    ([k <= n <= 21]), with the point inside ([0 < n <= 21]), after
    [0.] and zeros ([-6 < n <= 0]), and otherwise in exponent notation
    with the exponent [n - 1]. *)
Definition digits_toString (s : list digits) (n : Z) : string :=
  let k := Z.of_nat (length s) in
  if (k <=? n)%Z && (n <=? 21)%Z then string_of_digits (s ++ zeros (n - k))
  else if (0 <? n)%Z && (n <=? 21)%Z then
    string_of_digits (take (Z.to_nat n) s)
      +:+ String "." (string_of_digits (drop (Z.to_nat n) s))
  else if (-6 <? n)%Z && (n <=? 0)%Z then
    String "0" (String "." (string_of_digits (zeros (- n) ++ s)))
  else
    let exponent :=
      String "e" (String (if (0 <? n - 1)%Z then "+" else "-")%char
                    (string_of_N (Z.abs_N (n - 1)))) in
    match s with
    | [] => exponent
    | [d] => String (digit_char d) exponent
    | d :: rest =>
        String (digit_char d) (String "." (string_of_digits rest +:+ exponent))
    end.

Definition number_toString (number : JsNumber) : string :=
  match number with
  | NZero => "0"
  | NDec false s n => digits_toString s n
  | NDec true s n => String "-" (digits_toString s n)
  | NNaN => "NaN"
  | NInfinity false => "Infinity"
  | NInfinity true => "-Infinity"
  end.

(** The message V8 gives the [TypeError] of a property read on
    [undefined] or [null]. *)
Definition cannot_read_message (of_value property : string) : string :=
  "Cannot read properties of " +:+ of_value +:+ " (reading '" +:+ property +:+ "')".

(** [Array.prototype.join] on an array of strings. *)
Fixpoint join (sep : string) (l : list string) : string :=
  match l with
  | [] => EmptyString
  | [x] => x
  | x :: rest => x +:+ sep +:+ join sep rest
  end.

(** The method call [v.toString()] with the built-in [toString] of each
    kind of value. *)
Fixpoint toString (v : JsValue) : Thrown + string :=
  match v with
  | JUndefined => inl (JsError (cannot_read_message "undefined" "toString"))
  | JNull => inl (JsError (cannot_read_message "null" "toString"))
  | JBool true => inr "true"
  | JBool false => inr "false"
  | JNum n => inr (number_toString n)
  | JStr s => inr s
  | JArr elems =>
      inr (join ","
             (map (fun e => match e with
                            | JUndefined | JNull => EmptyString
                            | _ => match toString e with
                                   | inr s => s
                                   | inl _ => EmptyString
                                   end
                            end) elems))
  | JObj _ => inr "[object Object]"
  end.

(** The operator [key in v] for a key that is no property of
    [Object.prototype] or [Array.prototype] and no array index (the
    drivers use it with 'userPublicKey' and 'tools' only): on an object
    it asks for an own property, on a primitive it throws. *)
Definition in_operator (key : string) (v : JsValue) : Thrown + bool :=
  match v with
  | JObj props => inr (existsb (String.eqb key) (map fst props))
  | JArr _ => inr false
  | JUndefined => inl (JsError ("Cannot use 'in' operator to search for '" +:+ key +:+ "' in undefined"))
  | JNull => inl (JsError ("Cannot use 'in' operator to search for '" +:+ key +:+ "' in null"))
  | JBool true => inl (JsError ("Cannot use 'in' operator to search for '" +:+ key +:+ "' in true"))
  | JBool false => inl (JsError ("Cannot use 'in' operator to search for '" +:+ key +:+ "' in false"))
  | JNum n => inl (JsError ("Cannot use 'in' operator to search for '" +:+ key +:+ "' in " +:+ number_toString n))
  | JStr s => inl (JsError ("Cannot use 'in' operator to search for '" +:+ key +:+ "' in " +:+ s))
  end.

(** Property read [obj.key] on an object of own data properties. *)
Fixpoint get_property (key : string) (props : list (string * JsValue)) : JsValue :=
  match props with
  | [] => JUndefined
  | (k, v) :: rest => if String.eqb key k then v else get_property key rest
  end.

End Js.
Export Js.

(** ** JSON text: [JSON.stringify(value, null, 2)] and [JSON.parse] *)

Module Json.

Definition LF : ascii := "010"%char.
Definition DQUOTE : ascii := "034"%char.
Definition BACKSLASH : ascii := "092"%char.

Definition hex_digit (n : N) : ascii :=
  match n with
  | 0 => "0" | 1 => "1" | 2 => "2" | 3 => "3" | 4 => "4"
  | 5 => "5" | 6 => "6" | 7 => "7" | 8 => "8" | 9 => "9"
  | 10 => "a" | 11 => "b" | 12 => "c" | 13 => "d" | 14 => "e"
  | _ => "f"
  end%N%char.

(** [UnicodeEscape] of a code unit below 256: a backslash, [u], and four
    lowercase hexadecimal digits. *)
Definition UnicodeEscape (c : ascii) : string :=
  let n := N_of_ascii c in
  String BACKSLASH (String "u" (String "0" (String "0"
    (String (hex_digit (n / 16)) (String (hex_digit (n mod 16)) EmptyString))))).

(** The text [QuoteJSONString] puts for one code unit. *)
Definition quote_char (c : ascii) : string :=
  if Ascii.eqb c "008" then String BACKSLASH "b"
  else if Ascii.eqb c "009" then String BACKSLASH "t"
  else if Ascii.eqb c "010" then String BACKSLASH "n"
  else if Ascii.eqb c "012" then String BACKSLASH "f"
  else if Ascii.eqb c "013" then String BACKSLASH "r"
  else if Ascii.eqb c DQUOTE then String BACKSLASH (String DQUOTE EmptyString)
  else if Ascii.eqb c BACKSLASH then String BACKSLASH (String BACKSLASH EmptyString)
  else if (N_of_ascii c <? 32)%N then UnicodeEscape c
  else String c EmptyString.

Fixpoint quote_chars (s : string) : string :=
  match s with
  | EmptyString => EmptyString
  | String c rest => quote_char c +:+ quote_chars rest
  end.

Definition QuoteJSONString (s : string) : string :=
  String DQUOTE (quote_chars s +:+ String DQUOTE EmptyString).

(** The [gap] of [JSON.stringify(_, null, 2)]: two spaces. *)
Definition gap : string := "  ".

(** The text of a non-empty array or object: the members on lines of
    their own at the inner indent, the closing bracket at the outer one. *)
Definition wrap_members (opening closing : ascii) (stepback : string)
    (partial : list string) : string :=
  match partial with
  | [] => String opening (String closing EmptyString)
  | _ =>
      let indent := stepback +:+ gap in
      String opening (String LF indent)
        +:+ join (String "," (String LF indent)) partial
        +:+ String LF stepback +:+ String closing EmptyString
  end.

(** [SerializeJSONProperty] with no replacer function and no [toJSON]
    (the values of the model carry no methods); [None] is the result
    [undefined].  [indent] is the current indentation. *)
Fixpoint SerializeJSONProperty (indent : string) (v : JsValue) : option string :=
  match v with
  | JUndefined => None
  | JNull => Some "null"
  | JBool true => Some "true"
  | JBool false => Some "false"
  | JNum NNaN => Some "null"
  | JNum (NInfinity _) => Some "null"
  | JNum n => Some (number_toString n)
  | JStr s => Some (QuoteJSONString s)
  | JArr elems =>
      Some (wrap_members "[" "]" indent
              (map (fun e => match SerializeJSONProperty (indent +:+ gap) e with
                             | Some text => text
                             | None => "null"
                             end) elems))
  | JObj props =>
      Some (wrap_members "{" "}" indent
              ((fix members (ps : list (string * JsValue)) : list string :=
                  match ps with
                  | [] => []
                  | (k, x) :: rest =>
                      match SerializeJSONProperty (indent +:+ gap) x with
                      | Some text => (QuoteJSONString k +:+ ": " +:+ text) :: members rest
                      | None => members rest
                      end
                  end) props))
  end.

(** [JSON.stringify(v, null, 2)]: a string, or [undefined]. *)
Definition JSON_stringify (v : JsValue) : JsValue :=
  match SerializeJSONProperty EmptyString v with
  | Some text => JStr text
  | None => JUndefined
  end.

(** *** Property order of an ordinary object

    The own property keys of an object enumerate with the array indices
    first, in ascending order, then the other keys in creation order.
    [props] of [JObj props] is that enumeration. *)

(** The array index a key denotes: the canonical numeral of an integer
    below 2^32 - 1. *)
Definition array_index (key : string) : option N :=
  match NilEmpty.uint_of_string key with
  | Some d =>
      let n := N.of_uint d in
      if String.eqb (string_of_N n) key && (n <? 4294967295)%N
      then Some n else None
  | None => None
  end.

Definition has_key (key : string) (props : list (string * JsValue)) : bool :=
  existsb (String.eqb key) (map fst props).

Fixpoint replace_value (key : string) (v : JsValue)
    (props : list (string * JsValue)) : list (string * JsValue) :=
  match props with
  | [] => []
  | (k, x) :: rest =>
      if String.eqb key k then (k, v) :: rest
      else (k, x) :: replace_value key v rest
  end.

Fixpoint insert_index (i : N) (key : string) (v : JsValue)
    (props : list (string * JsValue)) : list (string * JsValue) :=
  match props with
  | [] => [(key, v)]
  | (k, x) :: rest =>
      match array_index k with
      | Some j => if (j <? i)%N then (k, x) :: insert_index i key v rest
                  else (key, v) :: props
      | None => (key, v) :: props
      end
  end.

(** [CreateDataProperty] on an ordinary object: an existing key keeps
    its place and takes the new value, a new key is enumerated where its
    kind puts it. *)
Definition define_property (key : string) (v : JsValue)
    (props : list (string * JsValue)) : list (string * JsValue) :=
  if has_key key props then replace_value key v props
  else match array_index key with
       | Some i => insert_index i key v props
       | None => props ++ [(key, v)]
       end.

(** *** [JSON.parse]

    A recursive-descent reader of the JSON grammar.  [None] stands for
    the [SyntaxError] of a malformed text and for a text whose value is
    outside the model (a negative zero, an escaped code unit above
    255). *)

Definition is_ws (c : ascii) : bool :=
  Ascii.eqb c " " || Ascii.eqb c "009" || Ascii.eqb c "010" || Ascii.eqb c "013".

Fixpoint skip_ws (s : string) : string :=
  match s with
  | EmptyString => s
  | String c rest => if is_ws c then skip_ws rest else s
  end.

Fixpoint strip_prefix (p s : string) : option string :=
  match p, s with
  | EmptyString, _ => Some s
  | String a p', String b s' => if Ascii.eqb a b then strip_prefix p' s' else None
  | String _ _, EmptyString => None
  end.

Definition hex_value (c : ascii) : option N :=
  let n := N_of_ascii c in
  if (48 <=? n)%N && (n <=? 57)%N then Some (n - 48)%N
  else if (97 <=? n)%N && (n <=? 102)%N then Some (n - 87)%N
  else if (65 <=? n)%N && (n <=? 70)%N then Some (n - 55)%N
  else None.

Definition hex4 (h1 h2 h3 h4 : ascii) : option N :=
  match hex_value h1, hex_value h2, hex_value h3, hex_value h4 with
  | Some a, Some b, Some c, Some d => Some (((a * 16 + b) * 16 + c) * 16 + d)%N
  | _, _, _, _ => None
  end.

(** The code unit of a one-letter escape. *)
Definition unescape (e : ascii) : option ascii :=
  if Ascii.eqb e DQUOTE then Some DQUOTE
  else if Ascii.eqb e BACKSLASH then Some BACKSLASH
  else if Ascii.eqb e "/" then Some "/"%char
  else if Ascii.eqb e "b" then Some "008"%char
  else if Ascii.eqb e "f" then Some "012"%char
  else if Ascii.eqb e "n" then Some "010"%char
  else if Ascii.eqb e "r" then Some "013"%char
  else if Ascii.eqb e "t" then Some "009"%char
  else None.

Definition prepend (c : ascii) (r : option (string * string)) : option (string * string) :=
  match r with
  | Some (str, rest) => Some (String c str, rest)
  | None => None
  end.

(** The characters of a string literal after its opening quote, up to
    and including the closing one. *)
Fixpoint parse_string_chars (s : string) : option (string * string) :=
  match s with
  | EmptyString => None
  | String c r =>
      if Ascii.eqb c DQUOTE then Some (EmptyString, r)
      else if Ascii.eqb c BACKSLASH then
        match r with
        | EmptyString => None
        | String e r1 =>
            match unescape e with
            | Some ch => prepend ch (parse_string_chars r1)
            | None =>
                if Ascii.eqb e "u" then
                  match r1 with
                  | String h1 (String h2 (String h3 (String h4 r2))) =>
                      match hex4 h1 h2 h3 h4 with
                      | Some n => if (n <? 256)%N
                                  then prepend (ascii_of_N n) (parse_string_chars r2)
                                  else None
                      | None => None
                      end
                  | _ => None
                  end
                else None
            end
        end
      else if (N_of_ascii c <? 32)%N then None
      else prepend c (parse_string_chars r)
  end.

Definition digit_of (c : ascii) : option digits :=
  if Ascii.eqb c "0" then Some d0 else if Ascii.eqb c "1" then Some d1
  else if Ascii.eqb c "2" then Some d2 else if Ascii.eqb c "3" then Some d3
  else if Ascii.eqb c "4" then Some d4 else if Ascii.eqb c "5" then Some d5
  else if Ascii.eqb c "6" then Some d6 else if Ascii.eqb c "7" then Some d7
  else if Ascii.eqb c "8" then Some d8 else if Ascii.eqb c "9" then Some d9
  else None.

(** The longest prefix of digits and what follows it. *)
Fixpoint lex_digits (s : string) : list digits * string :=
  match s with
  | EmptyString => ([], s)
  | String c r =>
      match digit_of c with
      | Some d => let (l, r') := lex_digits r in (d :: l, r')
      | None => ([], s)
      end
  end.

(** The fraction of a number token: a point and at least one digit, or
    nothing. *)
Definition lex_fraction (s : string) : option (list digits * string) :=
  match s with
  | String c r =>
      if Ascii.eqb c "." then
        match lex_digits r with
        | ([], _) => None
        | (f, r') => Some (f, r')
        end
      else Some ([], s)
  | EmptyString => Some ([], s)
  end.

Definition lex_exponent_digits (negative : bool) (s : string) : option (Z * string) :=
  match lex_digits s with
  | ([], _) => None
  | (l, r) =>
      let x := Z.of_N (N.of_uint (of_list l)) in
      Some (if negative then (- x)%Z else x, r)
  end.

(** The exponent of a number token: [e] or [E], an optional sign and at
    least one digit, or nothing. *)
Definition lex_exponent (s : string) : option (Z * string) :=
  match s with
  | String c r =>
      if Ascii.eqb c "e" || Ascii.eqb c "E" then
        match r with
        | String sign r' =>
            if Ascii.eqb sign "+" then lex_exponent_digits false r'
            else if Ascii.eqb sign "-" then lex_exponent_digits true r'
            else lex_exponent_digits false r
        | EmptyString => None
        end
      else Some (0%Z, s)
  | EmptyString => Some (0%Z, s)
  end.

(** *** The Number value of a decimal numeral

    [JSON.parse] gives a number token the double nearest to its
    mathematical value, ties going to the even significand (IEEE 754
    binary64, round to nearest); [Number::toString] names a double by
    the shortest decimal numeral that rounds to it, and by the closest
    of these. *)

Module Binary64.

(** The outcome of rounding a positive real: the double [m * 2^e], with
    [2^52 <= m < 2^53] and [-1074 <= e <= 971] for a normal number and
    [m < 2^52], [e = -1074] for a subnormal one; zero; or infinity. *)
Inductive Rounded : Type :=
| Underflow
| Finite (m : positive) (e : Z)
| Overflow.

Definition value_of (s : list digits) : Z := Z.of_N (N.of_uint (of_list s)).

Definition digits_of (z : Z) : list digits := to_list (N.to_uint (Z.to_N z)).

(** The fraction [num / den] multiplied by [base ^ x]. *)
Definition scale (base num den x : Z) : Z * Z :=
  if (0 <=? x)%Z then (num * base ^ x, den)%Z else (num, den * base ^ (- x))%Z.

(** The largest [l] with [2^l <= num / den]. *)
Definition floor_log2 (num den : Z) : Z :=
  let l := (Z.log2 num - Z.log2 den)%Z in
  let (p, q) := scale 2 den num l in
  if (p <=? q)%Z then l else (l - 1)%Z.

(** The integer nearest to [p / q], the even one of two. *)
Definition round_half_even (p q : Z) : Z :=
  let d := (p / q)%Z in
  match (2 * (p mod q) ?= q)%Z with
  | Lt => d
  | Gt => (d + 1)%Z
  | Eq => if Z.even d then d else (d + 1)%Z
  end.

(** The double nearest to [s * 10^x], for [s > 0].  A numeral of more
    than 309 integer digits is beyond the largest double, one below
    [10^-323] is nearer to zero than to the least double. *)
Definition round (s x : Z) : Rounded :=
  let n := (x + Z.of_nat (length (digits_of s)))%Z in
  if (309 <? n)%Z then Overflow
  else if (n <? -323)%Z then Underflow
  else
    let (num, den) := scale 10 s 1 x in
    let e := Z.max (floor_log2 num den - 52) (-1074) in
    let (q, p) := scale 2 den num e in
    let m := round_half_even p q in
    let (m, e) := if (m =? 2 ^ 53)%Z then (2 ^ 52, e + 1)%Z else (m, e) in
    match m with
    | Zpos m => if (971 <? e)%Z then Overflow else Finite m e
    | _ => Underflow
    end.

Fixpoint leading_zeros (fuel : nat) (num den : Z) : Z :=
  match fuel with
  | O => 0
  | S fuel' =>
      if (den <=? num * 10)%Z then 0%Z
      else (1 + leading_zeros fuel' (num * 10) den)%Z
  end.

(** The position [n] of the decimal point of a positive fraction:
    [10^(n-1) <= num / den < 10^n]. *)
Definition point_of (num den : Z) : Z :=
  if (den <=? num)%Z then Z.of_nat (length (digits_of (num / den)))
  else (- leading_zeros 400 num den)%Z.

Definition rounds_to (m : positive) (e : Z) (s x : Z) : bool :=
  match round s x with
  | Finite m' e' => (m' =? m)%positive && (e' =? e)%Z
  | _ => false
  end.

(** The multiple of [10^x] that denotes the double [m * 2^e] and is
    closest to it (the even one of two), where there is one: only the
    multiples next to the double on either side can be. *)
Definition candidate (m : positive) (e : Z) (x : Z) : option Z :=
  let (num, den) := scale 2 (Zpos m) 1 e in
  let (q, p) := scale 10 den num x in
  let f := (p / q)%Z in
  let r := (p mod q)%Z in
  let low := rounds_to m e f x in
  let high := rounds_to m e (f + 1) x in
  if (r =? 0)%Z then (if low then Some f else None)
  else
    match low, high with
    | true, true =>
        match (2 * r ?= q)%Z with
        | Lt => Some f
        | Gt => Some (f + 1)%Z
        | Eq => Some (if Z.even f then f else (f + 1)%Z)
        end
    | true, false => Some f
    | false, true => Some (f + 1)%Z
    | false, false => None
    end.

Definition strip_trailing (s : list digits) : list digits :=
  rev (lnzhead (rev s)).

(** The numerals of [k], [k + 1], ... digits in turn, up to the first
    that denotes the double; seventeen digits always do. *)
Fixpoint shortest_from (fuel : nat) (m : positive) (e : Z) (n k : Z)
    : list digits * Z :=
  let x := (n - k)%Z in
  match candidate m e x with
  | Some s => (strip_trailing (digits_of s), (x + Z.of_nat (length (digits_of s)))%Z)
  | None =>
      match fuel with
      | O => ([], 0%Z)
      | S fuel' => shortest_from fuel' m e n (k + 1)
      end
  end.

(** The digits and the decimal point [Number::toString] prints for the
    double [m * 2^e]. *)
Definition shortest (m : positive) (e : Z) : list digits * Z :=
  let (num, den) := scale 2 (Zpos m) 1 e in
  shortest_from 20 m e (point_of num den) 1.

End Binary64.

(** The digits of a numeral without the zeros at either end, and the
    decimal point that goes with them. *)
Definition significant (s : list digits) (point : Z) : list digits * Z :=
  let s1 := lnzhead s in
  (Binary64.strip_trailing s1,
   (point - (Z.of_nat (length s) - Z.of_nat (length s1)))%Z).

(** The Number value of the numeral [0.s * 10^point] with its sign. *)
Definition to_number (negative : bool) (s : list digits) (point : Z) : option JsNumber :=
  match significant s point with
  | ([], _) => if negative then None else Some NZero
  | (s2, n) =>
      match Binary64.round (Binary64.value_of s2) (n - Z.of_nat (length s2)) with
      | Binary64.Underflow => if negative then None else Some NZero
      | Binary64.Overflow => Some (NInfinity negative)
      | Binary64.Finite m e =>
          let (d, p) := Binary64.shortest m e in Some (NDec negative d p)
      end
  end.

(** A number token after its optional minus sign: an integer part with
    no leading zero, then an optional fraction and an optional
    exponent. *)
Definition parse_number (negative : bool) (s : string) : option (JsValue * string) :=
  match lex_digits s with
  | ([], _) => None
  | (d0 :: _ :: _, _) => None
  | (i, r1) =>
      match lex_fraction r1 with
      | None => None
      | Some (f, r2) =>
          match lex_exponent r2 with
          | None => None
          | Some (x, r3) =>
              match to_number negative (i ++ f) (Z.of_nat (length i) + x) with
              | Some n => Some (JNum n, r3)
              | None => None
              end
          end
      end
  end.

(** The elements of a non-empty array after the opening bracket, read
    by [pv]; [n] bounds the number of elements. *)
Fixpoint parse_elements (pv : string -> option (JsValue * string)) (n : nat)
    (acc : list JsValue) (s : string) : option (list JsValue * string) :=
  match n with
  | O => None
  | S n' =>
      match pv s with
      | None => None
      | Some (v, s1) =>
          match skip_ws s1 with
          | EmptyString => None
          | String c s2 =>
              if Ascii.eqb c "," then parse_elements pv n' (acc ++ [v]) (skip_ws s2)
              else if Ascii.eqb c "]" then Some (acc ++ [v], s2)
              else None
          end
      end
  end.

(** The members of a non-empty object after the opening brace. *)
Fixpoint parse_members (pv : string -> option (JsValue * string)) (n : nat)
    (acc : list (string * JsValue)) (s : string)
    : option (list (string * JsValue) * string) :=
  match n with
  | O => None
  | S n' =>
      match s with
      | EmptyString => None
      | String q r =>
          if Ascii.eqb q DQUOTE then
            match parse_string_chars r with
            | None => None
            | Some (key, s1) =>
                match skip_ws s1 with
                | EmptyString => None
                | String colon s2 =>
                    if Ascii.eqb colon ":" then
                      match pv (skip_ws s2) with
                      | None => None
                      | Some (v, s3) =>
                          let acc' := define_property key v acc in
                          match skip_ws s3 with
                          | EmptyString => None
                          | String c s4 =>
                              if Ascii.eqb c "," then parse_members pv n' acc' (skip_ws s4)
                              else if Ascii.eqb c "}" then Some (acc', s4)
                              else None
                          end
                      end
                    else None
                end
            end
          else None
      end
  end.

Definition literal (word : string) (v : JsValue) (s : string) : option (JsValue * string) :=
  match strip_prefix word s with
  | Some rest => Some (v, rest)
  | None => None
  end.

(** One JSON value at the head of [s] (no leading white space). *)
Fixpoint parse_value (fuel : nat) (s : string) : option (JsValue * string) :=
  match fuel with
  | O => None
  | S fuel' =>
      match s with
      | EmptyString => None
      | String c r =>
          if Ascii.eqb c "n" then literal "ull" JNull r
          else if Ascii.eqb c "t" then literal "rue" (JBool true) r
          else if Ascii.eqb c "f" then literal "alse" (JBool false) r
          else if Ascii.eqb c DQUOTE then
            match parse_string_chars r with
            | Some (str, rest) => Some (JStr str, rest)
            | None => None
            end
          else if Ascii.eqb c "[" then
            match skip_ws r with
            | EmptyString => None
            | String c1 r1 =>
                if Ascii.eqb c1 "]" then Some (JArr [], r1)
                else match parse_elements (parse_value fuel') fuel' [] (String c1 r1) with
                     | Some (elems, rest) => Some (JArr elems, rest)
                     | None => None
                     end
            end
          else if Ascii.eqb c "{" then
            match skip_ws r with
            | EmptyString => None
            | String c1 r1 =>
                if Ascii.eqb c1 "}" then Some (JObj [], r1)
                else match parse_members (parse_value fuel') fuel' [] (String c1 r1) with
                     | Some (props, rest) => Some (JObj props, rest)
                     | None => None
                     end
            end
          else if Ascii.eqb c "-" then parse_number true r
          else parse_number false s
      end
  end.

(** [JSON.parse(text)] with no reviver. *)
Definition JSON_parse (text : string) : option JsValue :=
  match parse_value (S (String.length text)) (skip_ws text) with
  | Some (v, rest) =>
      match skip_ws rest with
      | EmptyString => Some v
      | String _ _ => None
      end
  | None => None
  end.

End Json.
Export Json.

(** ** Tools, capabilities and the effects of a call *)

(** A zod schema object.  The drivers hand it from the tool to the
    capability and never look inside. *)
Inductive Schema : Type := ZodSchema (id : nat).

(** [ToolBase] of the GOAT SDK.  [execute] is asynchronous: the
    completion is what awaiting its promise gives. *)
Module Tool.
Record t : Type := mk {
  name : string;
  description : string;
  parameters : Schema;
  execute : JsValue -> Completion JsValue
}.
End Tool.

(** What a call does besides returning. *)
Inductive Event : Type :=
| Executed (tool : Tool.t) (args : JsValue)
| ConsoleError (label : string) (error : Thrown)
| ConsoleLog (items : list JsValue)
| Delegated (args : list JsValue).

(** Computations of the drivers: the events so far and how the
    computation completed. *)
Definition M (A : Type) : Type := (list Event * Completion A)%type.

Definition ret {A} (a : A) : M A := ([], Normal a).

Definition throw {A} (e : Thrown) : M A := ([], Throw e).

Definition bind {A B} (m : M A) (k : A -> M B) : M B :=
  match m with
  | (log, Normal a) => let (log', r) := k a in (log ++ log', r)
  | (log, Throw e) => (log, Throw e)
  | (log, Pending) => (log, Pending)
  end.

Notation "'do' x <- m ; k" := (bind m (fun x => k))
  (at level 10, x name, m at level 100, k at level 200).
Notation "m ;; k" := (bind m (fun _ => k))
  (at level 100, k at level 200, right associativity).

(** [try { body } catch (error) { handler }] *)
Definition try_catch {A} (body : M A) (handler : Thrown -> M A) : M A :=
  match body with
  | (log, Throw e) => let (log', r) := handler e in (log ++ log', r)
  | _ => body
  end.

Definition emit (e : Event) : M unit := ([e], Normal tt).

Definition lift {A} (r : Thrown + A) : M A :=
  match r with
  | inl e => throw e
  | inr a => ret a
  end.

(** [await tool.execute(args)] *)
Definition call_execute (tool : Tool.t) (args : JsValue) : M JsValue :=
  ([Executed tool args], Tool.execute tool args).

(** [Capability] of the OpenServ SDK.  [run] reads the driver's
    [toolNameMap] when it is called, so it takes the content of the map
    at that moment. *)
Module Capability.
Record t : Type := mk {
  name : string;
  description : string;
  schema : Schema;
  run : gmap string Tool.t -> JsValue -> M JsValue
}.
End Capability.

(** [name.replace(/\./g, '_')] *)
Fixpoint formatToolName (name : string) : string :=
  match name with
  | EmptyString => EmptyString
  | String c rest =>
      String (if Ascii.eqb c "." then "_"%char else c) (formatToolName rest)
  end.

(** [error instanceof Error ? error.message : 'Unknown error'] *)
Definition error_text (error : Thrown) : string :=
  match error with
  | JsError message => message
  | JsThrow _ => "Unknown error"
  end.

(** [typeof response === 'object' ? JSON.stringify(response, null, 2)
    : response.toString()] *)
Definition normalize (response : JsValue) : M JsValue :=
  if String.eqb (typeof response) "object"
  then ret (JSON_stringify response)
  else do s <- lift (toString response); ret (JStr s).

(** The guarded region of [run] and its [catch], shared word for word by
    the DexScreener, swap and CoinGecko drivers. *)
Definition dispatch (formattedName : string) (toolNameMap : gmap string Tool.t)
    (args : JsValue) : M JsValue :=
  try_catch
    (do originalTool <-
       match toolNameMap !! formattedName with
       | Some tool => ret tool
       | None => throw (JsError ("Original tool not found for " +:+ formattedName))
       end;
     do response <- call_execute originalTool args;
     normalize response)
    (fun error =>
       emit (ConsoleError ("Error in capability " +:+ formattedName +:+ ":") error) ;;
       ret (JStr ("An error occurred while running " +:+ formattedName +:+ ": "
                     +:+ error_text error))).

(** [s.split('.')] *)
Fixpoint split_dot (s : string) : list string :=
  match s with
  | EmptyString => [EmptyString]
  | String c r =>
      if Ascii.eqb c "." then EmptyString :: split_dot r
      else match split_dot r with
           | first :: others => String c first :: others
           | [] => [String c EmptyString]
           end
  end.

(** [tool.name.split('.').pop() || tool.name] *)
Definition functionName (tool_name : string) : string :=
  let popped := List.last (split_dot tool_name) EmptyString in
  if String.eqb popped EmptyString then tool_name else popped.

(** The names every object inherits from [Object.prototype]; a lookup
    [nameMap[key]] with one of them finds a function or an object, not a
    string. *)
Definition object_prototype_keys : list string :=
  [ "constructor"; "__defineGetter__"; "__defineSetter__"; "hasOwnProperty";
    "__lookupGetter__"; "__lookupSetter__"; "isPrototypeOf";
    "propertyIsEnumerable"; "toString"; "valueOf"; "__proto__";
    "toLocaleString" ].

Inductive Lookup : Type :=
| Own (value : string)
| Inherited
| Absent.

(** [nameMap[key]] on an object literal of string values. *)
Definition object_lookup (nameMap : list (string * string)) (key : string) : Lookup :=
  match find (fun entry => String.eqb key (fst entry)) nameMap with
  | Some entry => Own (snd entry)
  | None => if existsb (String.eqb key) object_prototype_keys then Inherited else Absent
  end.

(** ** The DexScreener driver *)

Module Dexscreener.

(** [run] of the capability built for [formattedName] *)
Definition run (formattedName : string) (toolNameMap : gmap string Tool.t)
    (args : JsValue) : M JsValue :=
  dispatch formattedName toolNameMap args.

Definition toCapability (tool : Tool.t) : Capability.t :=
  let formattedName := formatToolName (Tool.name tool) in
  {| Capability.name := formattedName;
     Capability.description := Tool.description tool;
     Capability.schema := Tool.parameters tool;
     Capability.run := run formattedName |}.

(** [tools.forEach(tool => toolNameMap.set(formatToolName(tool.name), tool))] *)
Definition register_tools (tools : list Tool.t) (toolNameMap : gmap string Tool.t)
    : gmap string Tool.t :=
  fold_left (fun registry tool => <[formatToolName (Tool.name tool) := tool]> registry)
    tools toolNameMap.

(** The setup part of [main]: the tools kept, the registry filled, the
    capabilities built. *)
Definition setup (allTools : list Tool.t) (toolNameMap : gmap string Tool.t)
    : list Capability.t * gmap string Tool.t :=
  let tools := List.filter (fun tool => String.prefix "dexscreener" (Tool.name tool)) allTools in
  (map toCapability tools, register_tools tools toolNameMap).

End Dexscreener.

(** [s.includes(needle)] *)
Fixpoint includes (needle s : string) : bool :=
  String.prefix needle s
  || match s with
     | EmptyString => false
     | String _ rest => includes needle rest
     end.

(** [c.toLowerCase()] on a code unit below 256: the letters A-Z and the
    capital letters of Latin-1 move 32 places up. *)
Definition lower_char (c : ascii) : ascii :=
  let n := N_of_ascii c in
  if ((65 <=? n) && (n <=? 90) || (192 <=? n) && (n <=? 222) && negb (n =? 215))%N
  then ascii_of_N (n + 32) else c.

Fixpoint toLowerCase (s : string) : string :=
  match s with
  | EmptyString => EmptyString
  | String c rest => String (lower_char c) (toLowerCase rest)
  end.

(** ** The swap driver *)

Module Swap.

(** ['dexscreener' | 'jupiter'] *)
Inductive ToolType : Type := dexscreener | jupiter.

Definition is_jupiter (toolType : ToolType) : bool :=
  match toolType with
  | jupiter => true
  | dexscreener => false
  end.

Definition nameMap : list (string * string) :=
  [ ("get_quote", "get_quote"); ("quote", "get_quote");
    ("swapTokens", "swap"); ("swap", "swap") ].

(** The value [baseName] holds when [formatToolName] is called: a
    string, or what [nameMap[baseName]] found on [Object.prototype]. *)
Inductive NameValue : Type :=
| NameString (s : string)
| NameInherited.

Definition baseName (tool : Tool.t) (toolType : ToolType) : NameValue :=
  let functionName := functionName (Tool.name tool) in
  let baseName :=
    if String.eqb functionName EmptyString then Tool.name tool else functionName in
  if is_jupiter toolType then
    match object_lookup nameMap baseName with
    | Own alias => NameString (if String.eqb alias EmptyString then baseName else alias)
    | Inherited => NameInherited
    | Absent => NameString baseName
    end
  else NameString baseName.

(** [formatToolName(baseName)]: the call [name.replace] fails on a value
    that is no string. *)
Definition formattedName (tool : Tool.t) (toolType : ToolType) : Thrown + string :=
  match baseName tool toolType with
  | NameString s => inr (formatToolName s)
  | NameInherited => inl (JsError "name.replace is not a function")
  end.

(** [run] of the capability built with [toolType] under [formattedName].
    The test on the arguments stands before the [try]. *)
Definition run (toolType : ToolType) (formattedName : string)
    (toolNameMap : gmap string Tool.t) (args : JsValue) : M JsValue :=
  do missing <-
    (if is_jupiter toolType && String.eqb formattedName "swap"
     then do present <- lift (in_operator "userPublicKey" args); ret (negb present)
     else ret false);
  if (missing : bool)
  then ret (JStr "Error: Missing userPublicKey for swap operation.")
  else dispatch formattedName toolNameMap args.

(** [toCapability] registers the tool under the formatted name, then
    returns the capability; the result carries the registry after the
    call. *)
Definition toCapability (tool : Tool.t) (toolType : ToolType)
    (toolNameMap : gmap string Tool.t)
    : Thrown + (Capability.t * gmap string Tool.t) :=
  match formattedName tool toolType with
  | inl e => inl e
  | inr formattedName =>
      inr ({| Capability.name := formattedName;
              Capability.description := Tool.description tool;
              Capability.schema := Tool.parameters tool;
              Capability.run := run toolType formattedName |},
           <[formattedName := tool]> toolNameMap)
  end.

(** [tools.map(tool => toCapability(tool, toolType))] *)
Fixpoint map_toCapability (tools : list Tool.t) (toolType : ToolType)
    (toolNameMap : gmap string Tool.t)
    : Thrown + (list Capability.t * gmap string Tool.t) :=
  match tools with
  | [] => inr ([], toolNameMap)
  | tool :: rest =>
      match toCapability tool toolType toolNameMap with
      | inl e => inl e
      | inr (capability, registry) =>
          match map_toCapability rest toolType registry with
          | inl e => inl e
          | inr (capabilities, registry') => inr (capability :: capabilities, registry')
          end
      end
  end.

(** The setup part of [main]: the Jupiter capabilities first, then the
    one DexScreener capability. *)
Definition setup (allTools : list Tool.t) (toolNameMap : gmap string Tool.t)
    : Thrown + (list Capability.t * gmap string Tool.t) :=
  let jupiterTools :=
    List.filter (fun tool =>
                   includes "jupiter" (toLowerCase (Tool.name tool))
                   || includes "quote" (toLowerCase (Tool.name tool))
                   || includes "swap" (toLowerCase (Tool.name tool))) allTools in
  let dexscreenerTools :=
    List.filter (fun tool => String.prefix "dexscreener" (Tool.name tool)) allTools in
  let filteredDexscreenerTools :=
    List.filter (fun tool => String.eqb (Tool.name tool) "dexscreener.search_pairs")
      dexscreenerTools in
  match map_toCapability jupiterTools jupiter toolNameMap with
  | inl e => inl e
  | inr (jupiterCapabilities, registry) =>
      match map_toCapability filteredDexscreenerTools dexscreener registry with
      | inl e => inl e
      | inr (dexscreenerCapabilities, registry') =>
          inr (jupiterCapabilities ++ dexscreenerCapabilities, registry')
      end
  end.

End Swap.

(** ** The Allora driver *)

Module Allora.

Definition nameMap : list (string * string) :=
  [ ("get_price_prediction", "get_price_prediction");
    ("price_prediction", "get_price_prediction") ].

(** [nameMap[baseName] || baseName]; [None] when the lookup finds a
    property of [Object.prototype], which is no string. *)
Definition capabilityName (tool : Tool.t) : option string :=
  let functionName := functionName (Tool.name tool) in
  let baseName :=
    if String.eqb functionName EmptyString then Tool.name tool else functionName in
  match object_lookup nameMap baseName with
  | Own alias => Some (if String.eqb alias EmptyString then baseName else alias)
  | Inherited => None
  | Absent => Some baseName
  end.

(** [run] of the capability built from [tool].  This driver has no
    [toolNameMap]: the closure holds the tool, and a registry, whatever
    it contains, plays no part. *)
Definition run (tool : Tool.t) (capabilityName : string)
    (_ : gmap string Tool.t) (args : JsValue) : M JsValue :=
  emit (ConsoleLog [JStr ("Running capability " +:+ capabilityName +:+ " with args:"); args]) ;;
  try_catch
    (do response <- call_execute tool args;
     emit (ConsoleLog [JStr ("Tool " +:+ Tool.name tool +:+ " response:"); response]) ;;
     normalize response)
    (fun error =>
       emit (ConsoleError ("Error in capability " +:+ Tool.name tool +:+ ":") error) ;;
       ret (JStr ("An error occurred while running " +:+ Tool.name tool +:+ ": "
                     +:+ error_text error))).

Definition toCapability (tool : Tool.t) : option Capability.t :=
  match capabilityName tool with
  | Some capabilityName =>
      Some {| Capability.name := capabilityName;
              Capability.description := Tool.description tool;
              Capability.schema := Tool.parameters tool;
              Capability.run := run tool capabilityName |}
  | None => None
  end.

End Allora.

(** ** The CoinGecko driver (README)

    This driver assigns to [tool.description], so the tools live in a
    store of objects and the arrays and the registry hold references. *)

Module Coingecko.

Definition truncate (tool : Tool.t) : Tool.t :=
  {| Tool.name := Tool.name tool;
     Tool.description :=
       String.substring 0 1000 (Tool.description tool) +:+ "... (truncated)";
     Tool.parameters := Tool.parameters tool;
     Tool.execute := Tool.execute tool |}.

(** [tool.description ? tool.description.length : 0] *)
Definition descLength (tool : Tool.t) : nat :=
  if String.eqb (Tool.description tool) EmptyString then 0
  else String.length (Tool.description tool).

(** One round of the loop that checks for long descriptions. *)
Definition check_description (heap : gmap nat Tool.t) (ref : nat) : gmap nat Tool.t :=
  match heap !! ref with
  | Some tool =>
      if 1000 <? descLength tool then <[ref := truncate tool]> heap else heap
  | None => heap
  end.

Definition check_descriptions (tools : list nat) (heap : gmap nat Tool.t)
    : gmap nat Tool.t :=
  fold_left check_description tools heap.

(** [!tool.name.includes('get_chain')] *)
Definition kept (heap : gmap nat Tool.t) (ref : nat) : bool :=
  match heap !! ref with
  | Some tool => negb (includes "get_chain" (Tool.name tool))
  | None => false
  end.

Definition register_tools (heap : gmap nat Tool.t) (tools : list nat)
    (toolNameMap : gmap string nat) : gmap string nat :=
  fold_left (fun registry ref =>
               match heap !! ref with
               | Some tool => <[formatToolName (Tool.name tool) := ref]> registry
               | None => registry
               end) tools toolNameMap.

Definition run (formattedName : string) (toolNameMap : gmap string Tool.t)
    (args : JsValue) : M JsValue :=
  dispatch formattedName toolNameMap args.

(** [toCapability] reads the tool object as the store holds it when the
    capability is built; [None] only for a reference to no object. *)
Definition toCapability (heap : gmap nat Tool.t) (ref : nat) : option Capability.t :=
  match heap !! ref with
  | Some tool =>
      let formattedName := formatToolName (Tool.name tool) in
      Some {| Capability.name := formattedName;
              Capability.description := Tool.description tool;
              Capability.schema := Tool.parameters tool;
              Capability.run := run formattedName |}
  | None => None
  end.

(** The tool objects a registry of references stands for. *)
Definition tools_of (heap : gmap nat Tool.t) (toolNameMap : gmap string nat)
    : gmap string Tool.t :=
  omap (fun ref => heap !! ref) toolNameMap.

Record Setup : Type := {
  tools : list nat;
  store : gmap nat Tool.t;
  registry : gmap string nat;
  capabilities : list (option Capability.t)
}.

(** The setup part of [main] (its console output left out). *)
Definition setup (allTools : list nat) (heap : gmap nat Tool.t)
    (toolNameMap : gmap string nat) : Setup :=
  let tools := List.filter (kept heap) allTools in
  let heap' := check_descriptions tools heap in
  {| tools := tools;
     store := heap';
     registry := register_tools heap' tools toolNameMap;
     capabilities := map (toCapability heap') tools |}.

End Coingecko.

(** ** The request observer (DexScreener and swap drivers) *)

Module RequestObserver.

(** [value.key] for the values the observer reads from. *)
Definition member (key : string) (v : JsValue) : JsValue :=
  match v with
  | JObj props => get_property key props
  | _ => JUndefined
  end.

(** The completion call of the OpenAI client: a delegation is an event,
    its completion is what the client's promise settles to. *)
Definition call_original (originalCreateChatCompletion : list JsValue -> Completion JsValue)
    (args : list JsValue) : M JsValue :=
  ([Delegated args], originalCreateChatCompletion args).

(** The function the drivers install in place of
    [openai.chat.completions.create]. *)
Definition create (originalCreateChatCompletion : list JsValue -> Completion JsValue)
    (args : list JsValue) : M JsValue :=
  let body := hd JUndefined args in
  do offered <-
    (if truthy body then lift (in_operator "tools" body) else ret false);
  (if (offered : bool)
   then emit (ConsoleLog [JStr "--- OpenAI Request (Tools): ---"]) ;;
        emit (ConsoleLog [JSON_stringify (member "tools" body)])
   else ret tt) ;;
  call_original originalCreateChatCompletion args.

End RequestObserver.

(** ** Vocabulary of the statements *)

(** [needle] occurs in [s]. *)
Definition contains (s needle : string) : Prop :=
  exists before after, s = before +:+ needle +:+ after.

(** The calls of [execute] a computation made, in order. *)
Fixpoint executed (log : list Event) : list (Tool.t * JsValue) :=
  match log with
  | [] => []
  | Executed tool args :: rest => (tool, args) :: executed rest
  | _ :: rest => executed rest
  end.

(** The delegations to the original completion call, in order. *)
Fixpoint delegations (log : list Event) : list (list JsValue) :=
  match log with
  | [] => []
  | Delegated args :: rest => args :: delegations rest
  | _ :: rest => delegations rest
  end.

(** The events of a computation other than its console output. *)
Fixpoint without_console (log : list Event) : list Event :=
  match log with
  | [] => []
  | ConsoleLog _ :: rest => without_console rest
  | ConsoleError _ _ :: rest => without_console rest
  | event :: rest => event :: without_console rest
  end.

(** *** JSON data

    The values [JSON.stringify] writes without loss: no [undefined], no
    [NaN] or infinity, every other number a double in the form the model
    holds it in, and in every object distinct keys in enumeration
    order. *)

Definition digit_value (d : digits) : N :=
  match d with
  | d0 => 0 | d1 => 1 | d2 => 2 | d3 => 3 | d4 => 4
  | d5 => 5 | d6 => 6 | d7 => 7 | d8 => 8 | d9 => 9
  end%N.

Fixpoint same_digits (a b : list digits) : bool :=
  match a, b with
  | [], [] => true
  | x :: a', y :: b' => (digit_value x =? digit_value y)%N && same_digits a' b'
  | _, _ => false
  end.

(** The digits have no zero at either end. *)
Definition trimmed (s : list digits) : bool :=
  match s, rev s with
  | d0 :: _, _ => false
  | _, d0 :: _ => false
  | [], _ => false
  | _, _ => true
  end.

(** A finite number of the model is a double: its numeral is the one
    [Number::toString] prints for the double nearest to it. *)
Definition is_double (number : JsNumber) : bool :=
  match number with
  | NZero => true
  | NDec negative s n =>
      trimmed s
      && match to_number negative s n with
         | Some (NDec negative' s' n') =>
             Bool.eqb negative negative' && same_digits s s' && (n =? n')%Z
         | _ => false
         end
  | NNaN | NInfinity _ => false
  end.

(** [k] may be enumerated before [k']: the keys differ, and an array
    index comes before every other key and before every larger index. *)
Definition key_precedes (k k' : string) : bool :=
  negb (String.eqb k' k)
  && match array_index k' with
     | Some j => match array_index k with
                 | Some i => (i <? j)%N
                 | None => false
                 end
     | None => true
     end.

Fixpoint ordered_keys (keys : list string) : bool :=
  match keys with
  | [] => true
  | k :: rest => forallb (key_precedes k) rest && ordered_keys rest
  end.

Fixpoint json_data (v : JsValue) : bool :=
  match v with
  | JUndefined => false
  | JNull => true
  | JBool _ => true
  | JNum number => is_double number
  | JStr _ => true
  | JArr elems => forallb json_data elems
  | JObj props =>
      ordered_keys (map fst props)
      && forallb (fun '(_, x) => json_data x) props
  end.

(** The number of nodes of a value: the fuel that reading its text
    takes. *)
Fixpoint json_size (v : JsValue) : nat :=
  match v with
  | JArr elems => S (list_sum (map json_size elems))
  | JObj props => S (list_sum (map (fun '(_, x) => json_size x) props))
  | _ => 1
  end.

Fixpoint ws_only (s : string) : bool :=
  match s with
  | EmptyString => true
  | String c rest => is_ws c && ws_only rest
  end.

Definition starts_with (p : ascii -> bool) (s : string) : bool :=
  match s with
  | EmptyString => false
  | String c _ => p c
  end.

Definition is_digit (c : ascii) : bool :=
  match digit_of c with
  | Some _ => true
  | None => false
  end.

(** The first character of the text of a value. *)
Definition value_start (c : ascii) : bool :=
  is_digit c || Ascii.eqb c "-" || Ascii.eqb c "n" || Ascii.eqb c "t"
  || Ascii.eqb c "f" || Ascii.eqb c DQUOTE || Ascii.eqb c "[" || Ascii.eqb c "{".

(** What the serializer puts after the text of a value: nothing, a
    comma, or a line feed. *)
Definition delimited (rest : string) : bool :=
  match rest with
  | EmptyString => true
  | String c _ => Ascii.eqb c "," || Ascii.eqb c LF
  end.

(** The integer part of a number token: one digit at least, and no
    zero before another digit. *)
Definition proper_integer (i : list digits) : bool :=
  match i with
  | [] => false
  | d0 :: _ :: _ => false
  | _ => true
  end.

(** The text [JSON.stringify] gives a value inside an array, where
    [undefined] is written as [null]. *)
Definition text_of (indent : string) (v : JsValue) : string :=
  match SerializeJSONProperty indent v with
  | Some text => text
  | None => "null"
  end.

(** The text of one member of an object, [txt] giving the text of its
    value. *)
Definition member_text (txt : JsValue -> string) (member : string * JsValue) : string :=
  QuoteJSONString (fst member) +:+ ": " +:+ txt (snd member).

(** What the normalization step owes for [response]: a string as it is,
    any other value as its JSON text, which reads back to the value. *)
Definition normalized (response : JsValue) (outcome : Completion JsValue) : Prop :=
  match response with
  | JStr s => outcome = Normal (JStr s)
  | _ =>
      exists text,
        outcome = Normal (JStr text)
        /\ JSON_stringify response = JStr text
        /\ JSON_parse text = Some response
  end.

(** The test on the arguments, on an arguments object *)

(** The test the swap driver makes before the [try]. *)
Definition swap_guard (toolType : Swap.ToolType) (formattedName : string)
    (props : list (string * JsValue)) : bool :=
  Swap.is_jupiter toolType && String.eqb formattedName "swap"
  && negb (has_key "userPublicKey" props).

(** ** Tools and capabilities of the examples *)

Definition failing_tool : Tool.t :=
  Tool.mk "dexscreener.search_pairs" "Search for pairs" (ZodSchema 0)
    (fun _ => Throw (JsError "rate limit exceeded")).

Definition silent_tool : Tool.t :=
  Tool.mk "dexscreener.search_pairs" "Search for pairs" (ZodSchema 0)
    (fun _ => Normal JUndefined).

Definition null_tool : Tool.t :=
  Tool.mk "dexscreener.search_pairs" "Search for pairs" (ZodSchema 0)
    (fun _ => Normal JNull).

Definition swap_tool : Tool.t :=
  Tool.mk "jupiter.swapTokens" "Swap tokens on Jupiter" (ZodSchema 1)
    (fun _ => Normal (JStr "swapped")).

Definition swap_capability : Capability.t :=
  {| Capability.name := "swap";
     Capability.description := "Swap tokens on Jupiter";
     Capability.schema := ZodSchema 1;
     Capability.run := Swap.run Swap.jupiter "swap" |}.

Definition long_description : string :=
  string_of_list_ascii (repeat "x"%char 1200).

Definition verbose_tool : Tool.t :=
  Tool.mk "coingecko.get_coin_prices" long_description (ZodSchema 2)
    (fun _ => Normal (JObj [])).

Definition pairs_tool_a : Tool.t :=
  Tool.mk "dexscreener.search_pairs" "Search for pairs" (ZodSchema 3)
    (fun _ => Normal (JStr "first")).

Definition pairs_tool_b : Tool.t :=
  Tool.mk "dexscreener_search.pairs" "Search for pairs, again" (ZodSchema 4)
    (fun _ => Normal (JStr "second")).

Definition swap_tool_a : Tool.t :=
  Tool.mk "jupiter.swap" "Swap on Jupiter" (ZodSchema 5)
    (fun _ => Normal (JStr "first")).

Definition swap_tool_b : Tool.t :=
  Tool.mk "jupiter.swapTokens" "Swap tokens on Jupiter" (ZodSchema 6)
    (fun _ => Normal (JStr "second")).

Definition prediction_tool : Tool.t :=
  Tool.mk "allora.get_price_prediction" "Price prediction" (ZodSchema 7)
    (fun _ => Normal (JStr "from the tool of the build")).

Definition other_prediction_tool : Tool.t :=
  Tool.mk "allora.price_prediction" "Another price prediction" (ZodSchema 8)
    (fun _ => Normal (JStr "from the tool registered later")).

Definition prediction_capability : Capability.t :=
  {| Capability.name := "get_price_prediction";
     Capability.description := "Price prediction";
     Capability.schema := ZodSchema 7;
     Capability.run := Allora.run prediction_tool "get_price_prediction" |}.

Definition price_tool : Tool.t :=
  Tool.mk "dex.search_pairs" "Search for pairs" (ZodSchema 9)
    (fun _ => Normal (JObj [("price"%string, JNum (NDec false [d1; d2; d3] 1));
                            ("pairs"%string, JArr [JStr "SOL/USDC"; JNull])])).

Definition lossy_tool : Tool.t :=
  Tool.mk "dex.search_pairs" "Search for pairs" (ZodSchema 10)
    (fun _ => Normal (JObj [("price"%string, JNum NNaN);
                            ("pairs"%string, JUndefined)])).

(** ** Further vocabulary *)

(** A dot occurs in [s]. *)
Fixpoint has_dot (s : string) : bool :=
  match s with
  | EmptyString => false
  | String c rest => Ascii.eqb c "." || has_dot rest
  end.

(** The calls of [console.error] a computation made, in order. *)
Fixpoint console_errors (log : list Event) : list (string * Thrown) :=
  match log with
  | [] => []
  | ConsoleError label error :: rest => (label, error) :: console_errors rest
  | _ :: rest => console_errors rest
  end.

(** ** Startup: the environment checks at the top of each driver *)

Module Startup.

(** [if (!process.env.KEY) { throw new Error('KEY is not set'); }] for
    each key in turn; a variable is a string when it is set.  [None]:
    no check throws. *)
Fixpoint require_env (keys : list string) (env : gmap string string) : option Thrown :=
  match keys with
  | [] => None
  | key :: rest =>
      match env !! key with
      | Some value =>
          if String.eqb value EmptyString
          then Some (JsError (key +:+ " is not set"))
          else require_env rest env
      | None => Some (JsError (key +:+ " is not set"))
      end
  end.

Definition dexscreener_keys : list string :=
  ["OPENAI_API_KEY"; "OPENSERV_API_KEY"; "RPC_PROVIDER_URL"].

Definition swap_keys : list string :=
  ["OPENAI_API_KEY"; "OPENSERV_API_KEY"; "RPC_PROVIDER_URL"].

Definition allora_keys : list string :=
  ["OPENAI_API_KEY"; "OPENSERV_API_KEY"; "RPC_PROVIDER_URL"; "ALLORA_API_KEY"].

Definition coingecko_keys : list string :=
  ["OPENAI_API_KEY"; "OPENSERV_API_KEY"; "RPC_PROVIDER_URL"; "COINGECKO_API_KEY"].

End Startup.

(** ** Further tools and capabilities of the examples *)

Definition inherited_name_tool : Tool.t :=
  Tool.mk "jupiter.toString" "Describe the Jupiter client" (ZodSchema 11)
    (fun _ => Normal (JStr "client")).

Definition jupiter_pairs_tool : Tool.t :=
  Tool.mk "jupiter.search_pairs" "Search the pairs Jupiter can swap" (ZodSchema 12)
    (fun _ => Normal (JStr "from Jupiter")).

Definition jupiter_pairs_capability : Capability.t :=
  {| Capability.name := "search_pairs";
     Capability.description := "Search the pairs Jupiter can swap";
     Capability.schema := ZodSchema 12;
     Capability.run := Swap.run Swap.jupiter "search_pairs" |}.

Definition dexscreener_pairs_capability : Capability.t :=
  {| Capability.name := "search_pairs";
     Capability.description := "Search for pairs";
     Capability.schema := ZodSchema 3;
     Capability.run := Swap.run Swap.dexscreener "search_pairs" |}.

Definition token_pairs_tool : Tool.t :=
  Tool.mk "dexscreener.get_token_pairs_by_token_address" "Get the pairs of a token"
    (ZodSchema 14) (fun _ => Normal (JStr "pairs of the token")).

Definition trending_tool : Tool.t :=
  Tool.mk "coingecko.get_trending_coins" "Gets the trending coins" (ZodSchema 13)
    (fun _ => Normal (JArr [JStr "bitcoin"])).

Definition request_body : list (string * JsValue) :=
  [ ("model"%string, JStr "gpt-4o");
    ("tools"%string,
     JArr [JObj [("type"%string, JStr "function");
                 ("function"%string,
                  JObj [("name"%string, JStr "dexscreener_search_pairs")])]]) ].

(* ===================================================================== *)
(** * Part II. Theorems                                                  *)
(* ===================================================================== *)

(** ** Strings *)

Lemma append_nil_r (s : string) : s +:+ EmptyString = s.
Proof. induction s as [|c s IH]; simpl; [reflexivity | now rewrite IH]. Qed.

Lemma append_assoc (a b c : string) : (a +:+ b) +:+ c = a +:+ (b +:+ c).
Proof. induction a as [|x a IH]; simpl; [reflexivity | now rewrite IH]. Qed.

Lemma append_cons (x : ascii) (a b : string) : String x a +:+ b = String x (a +:+ b).
Proof. reflexivity. Qed.

Lemma length_append (a b : string) :
  String.length (a +:+ b) = String.length a + String.length b.
Proof. induction a as [|x a IH]; simpl; [reflexivity | now rewrite IH]. Qed.

Lemma contains_middle (before needle after : string) :
  contains (before +:+ needle +:+ after) needle.
Proof. now exists before, after. Qed.

Lemma contains_end (before needle : string) : contains (before +:+ needle) needle.
Proof. exists before, EmptyString. now rewrite append_nil_r. Qed.

Lemma contains_append_l (prefix s needle : string) :
  contains s needle -> contains (prefix +:+ s) needle.
Proof.
  intros (b & a & ->). exists (prefix +:+ b), a. now rewrite append_assoc.
Qed.

(** ** The name formatter *)

Lemma formatToolName_length (n : string) :
  String.length (formatToolName n) = String.length n.
Proof. induction n as [|c n IH]; simpl; [reflexivity | now rewrite IH]. Qed.

Lemma formatToolName_get (n : string) (i : nat) :
  String.get i (formatToolName n)
  = option_map (fun c => if Ascii.eqb c "." then "_"%char else c) (String.get i n).
Proof.
  revert i. induction n as [|c n IH]; intros i; simpl; [reflexivity |].
  destruct i as [|i]; simpl; [reflexivity | apply IH].
Qed.

(** C7. [formatToolName] is a function of its argument alone; it puts an
    underscore at every position that held a dot, leaves every other
    position as it was, keeps the length, and its result holds no dot. *)
Theorem formatToolName_replaces_every_dot (n : string) :
  formatToolName n = formatToolName n
  /\ String.length (formatToolName n) = String.length n
  /\ (forall i c, String.get i n = Some c ->
        String.get i (formatToolName n)
        = Some (if Ascii.eqb c "." then "_"%char else c))
  /\ (forall i, String.get i (formatToolName n) <> Some "."%char).
Proof.
  split; [reflexivity |]. split; [apply formatToolName_length |]. split.
  - intros i c H. now rewrite formatToolName_get, H.
  - intros i. rewrite formatToolName_get.
    destruct (String.get i n) as [c|]; simpl; [| discriminate].
    destruct (Ascii.eqb c ".") eqn:E; [discriminate |].
    intros [= ->]. discriminate.
Qed.

(** ** The dispatcher *)

Ltac unfold_monad :=
  unfold try_catch, call_execute, normalize, bind, emit, lift, throw, ret in *.

(** An unregistered name: the lookup throws, the [catch] answers. *)
Lemma dispatch_unregistered (formattedName : string)
    (toolNameMap : gmap string Tool.t) (args : JsValue) :
  toolNameMap !! formattedName = None ->
  dispatch formattedName toolNameMap args
  = ([ConsoleError ("Error in capability " +:+ formattedName +:+ ":")
        (JsError ("Original tool not found for " +:+ formattedName))],
     Normal (JStr ("An error occurred while running " +:+ formattedName +:+ ": "
                     +:+ "Original tool not found for " +:+ formattedName))).
Proof. intros H. unfold dispatch. rewrite H. reflexivity. Qed.

(** A registered name: the tool found is executed once, on the
    arguments of the call, and nothing else is. *)
Lemma dispatch_registered (formattedName : string)
    (toolNameMap : gmap string Tool.t) (args : JsValue) (tool : Tool.t) :
  toolNameMap !! formattedName = Some tool ->
  executed (fst (dispatch formattedName toolNameMap args)) = [(tool, args)].
Proof.
  intros H. unfold dispatch. rewrite H. unfold_monad.
  destruct (Tool.execute tool args) as [response | e |]; simpl; try reflexivity.
  destruct (String.eqb (typeof response) "object"); simpl; [reflexivity |].
  destruct (toString response); reflexivity.
Qed.

(** What [dispatch] answers when the tool it finds completes with
    [outcome]. *)
Lemma dispatch_outcome (formattedName : string)
    (toolNameMap : gmap string Tool.t) (args : JsValue) (tool : Tool.t) :
  toolNameMap !! formattedName = Some tool ->
  snd (dispatch formattedName toolNameMap args)
  = match Tool.execute tool args with
    | Normal response =>
        if String.eqb (typeof response) "object"
        then Normal (JSON_stringify response)
        else match toString response with
             | inr s => Normal (JStr s)
             | inl error =>
                 Normal (JStr ("An error occurred while running " +:+ formattedName
                                 +:+ ": " +:+ error_text error))
             end
    | Throw error =>
        Normal (JStr ("An error occurred while running " +:+ formattedName
                        +:+ ": " +:+ error_text error))
    | Pending => Pending
    end.
Proof.
  intros H. unfold dispatch. rewrite H. unfold_monad.
  destruct (Tool.execute tool args) as [response | e |]; simpl; try reflexivity.
  destruct (String.eqb (typeof response) "object"); simpl; [reflexivity |].
  destruct (toString response); reflexivity.
Qed.

(** [dispatch] executes nothing but the tool the registry holds. *)
Lemma dispatch_executed_inv (formattedName : string)
    (toolNameMap : gmap string Tool.t) (args args' : JsValue) (tool : Tool.t) :
  In (tool, args') (executed (fst (dispatch formattedName toolNameMap args))) ->
  toolNameMap !! formattedName = Some tool /\ args' = args.
Proof.
  destruct (toolNameMap !! formattedName) as [found|] eqn:H.
  - rewrite (dispatch_registered _ _ _ _ H). intros [[= -> ->] | []]. now split.
  - rewrite (dispatch_unregistered _ _ _ H). intros [].
Qed.

Lemma swap_run_object (toolType : Swap.ToolType) (formattedName : string)
    (toolNameMap : gmap string Tool.t) (props : list (string * JsValue)) :
  Swap.run toolType formattedName toolNameMap (JObj props)
  = if swap_guard toolType formattedName props
    then ([], Normal (JStr "Error: Missing userPublicKey for swap operation."))
    else dispatch formattedName toolNameMap (JObj props).
Proof.
  unfold Swap.run, swap_guard, has_key.
  destruct (Swap.is_jupiter toolType && String.eqb formattedName "swap"); simpl.
  - destruct (existsb (String.eqb "userPublicKey") (map fst props)); simpl;
      [| reflexivity].
    destruct (dispatch formattedName toolNameMap (JObj props)) as [log r].
    reflexivity.
  - destruct (dispatch formattedName toolNameMap (JObj props)) as [log r].
    reflexivity.
Qed.

(** C1. For a name the registry does not hold and for every arguments
    object, [run] completes normally with a string in which the name
    occurs: in the DexScreener and CoinGecko drivers through the
    [catch], in the swap driver through the [catch] or through the
    answer of the test on the arguments. *)
Theorem run_unregistered_returns_string_with_name (name : string)
    (toolNameMap : gmap string Tool.t) (props : list (string * JsValue)) :
  toolNameMap !! name = None ->
  (exists text,
      snd (Dexscreener.run name toolNameMap (JObj props)) = Normal (JStr text)
      /\ contains text name)
  /\ (exists text,
      snd (Coingecko.run name toolNameMap (JObj props)) = Normal (JStr text)
      /\ contains text name)
  /\ (forall toolType, exists text,
      snd (Swap.run toolType name toolNameMap (JObj props)) = Normal (JStr text)
      /\ contains text name).
Proof.
  intros H.
  assert (D : exists text,
             snd (dispatch name toolNameMap (JObj props)) = Normal (JStr text)
             /\ contains text name).
  { rewrite (dispatch_unregistered _ _ _ H). eexists. split; [reflexivity |].
    apply contains_middle. }
  split; [exact D |]. split; [exact D |].
  intros toolType. rewrite swap_run_object.
  destruct (swap_guard toolType name props) eqn:G; [| exact D].
  unfold swap_guard in G.
  apply andb_prop in G as [G _]. apply andb_prop in G as [_ G].
  apply String.eqb_eq in G. subst name.
  eexists. split; [reflexivity |].
  now exists "Error: Missing userPublicKey for ", " operation.".
Qed.

Lemma run_unregistered_returns_string_with_name_witness :
  (exists text,
      snd (Dexscreener.run "nonexistent_tool" ∅ (JObj [])) = Normal (JStr text)
      /\ contains text "nonexistent_tool")
  /\ (exists text,
      snd (Coingecko.run "nonexistent_tool" ∅ (JObj [])) = Normal (JStr text)
      /\ contains text "nonexistent_tool")
  /\ (forall toolType, exists text,
      snd (Swap.run toolType "nonexistent_tool" ∅ (JObj [])) = Normal (JStr text)
      /\ contains text "nonexistent_tool").
Proof.
  apply (run_unregistered_returns_string_with_name "nonexistent_tool" ∅ []).
  reflexivity.
Defined.

(** What [dispatch] does when the tool it finds throws. *)
Lemma dispatch_throw (formattedName : string) (toolNameMap : gmap string Tool.t)
    (args : JsValue) (tool : Tool.t) (error : Thrown) :
  toolNameMap !! formattedName = Some tool ->
  Tool.execute tool args = Throw error ->
  dispatch formattedName toolNameMap args
  = ([Executed tool args;
      ConsoleError ("Error in capability " +:+ formattedName +:+ ":") error],
     Normal (JStr ("An error occurred while running " +:+ formattedName +:+ ": "
                     +:+ error_text error))).
Proof.
  intros Hreg Hexec. unfold dispatch. rewrite Hreg. unfold_monad.
  now rewrite Hexec.
Qed.

(** C2. When the registered tool's [execute] throws, [run] completes
    normally with the error string of the [catch], in which the message
    of a thrown [Error] occurs ([Unknown error] stands for any other
    thrown value): nothing propagates to the caller.  The swap driver
    answers an arguments object in the same way once its test on the
    arguments has passed; a call that test answers executes nothing, so
    that nothing is thrown. *)
Theorem run_reports_execute_error (name : string)
    (toolNameMap : gmap string Tool.t) (args : JsValue) (tool : Tool.t)
    (error : Thrown) :
  toolNameMap !! name = Some tool ->
  Tool.execute tool args = Throw error ->
  let text :=
    "An error occurred while running " +:+ name +:+ ": " +:+ error_text error in
  let log :=
    [Executed tool args;
     ConsoleError ("Error in capability " +:+ name +:+ ":") error] in
  (forall message, error = JsError message -> contains text message)
  /\ Dexscreener.run name toolNameMap args = (log, Normal (JStr text))
  /\ forall toolType props,
       args = JObj props ->
       Swap.run toolType name toolNameMap args
       = if swap_guard toolType name props
         then ([], Normal (JStr "Error: Missing userPublicKey for swap operation."))
         else (log, Normal (JStr text)).
Proof.
  intros Hreg Hexec text log.
  pose proof (dispatch_throw _ _ _ _ _ Hreg Hexec) as D.
  split; [| split].
  - intros message ->. subst text. cbn [error_text].
    do 2 apply contains_append_l. apply contains_end.
  - exact D.
  - intros toolType props ->. rewrite swap_run_object.
    now destruct (swap_guard toolType name props).
Qed.

Lemma run_reports_execute_error_witness :
  contains
    ("An error occurred while running dexscreener_search_pairs: "
       +:+ "rate limit exceeded")
    "rate limit exceeded"
  /\ Dexscreener.run "dexscreener_search_pairs"
       (<["dexscreener_search_pairs" := failing_tool]> ∅) (JObj [])
     = ([Executed failing_tool (JObj []);
         ConsoleError "Error in capability dexscreener_search_pairs:"
           (JsError "rate limit exceeded")],
        Normal (JStr ("An error occurred while running dexscreener_search_pairs: "
                        +:+ "rate limit exceeded")))
  /\ Swap.run Swap.dexscreener "dexscreener_search_pairs"
       (<["dexscreener_search_pairs" := failing_tool]> ∅) (JObj [])
     = ([Executed failing_tool (JObj []);
         ConsoleError "Error in capability dexscreener_search_pairs:"
           (JsError "rate limit exceeded")],
        Normal (JStr ("An error occurred while running dexscreener_search_pairs: "
                        +:+ "rate limit exceeded"))).
Proof.
  assert (Hreg : (<["dexscreener_search_pairs" := failing_tool]> ∅ : gmap string Tool.t)
                   !! "dexscreener_search_pairs" = Some failing_tool) by reflexivity.
  assert (Hexec : Tool.execute failing_tool (JObj []) = Throw (JsError "rate limit exceeded"))
    by reflexivity.
  destruct (run_reports_execute_error "dexscreener_search_pairs"
              (<["dexscreener_search_pairs" := failing_tool]> ∅) (JObj [])
              failing_tool (JsError "rate limit exceeded") Hreg Hexec)
    as (Hmessage & Hrun & Hswap).
  split; [exact (Hmessage "rate limit exceeded" eq_refl) |].
  split; [exact Hrun |].
  exact (Hswap Swap.dexscreener [] eq_refl).
Defined.

(** C10. When the registered tool's [execute] completes with
    [undefined], the call of [toString] throws inside the guarded
    region and [run] completes normally with the error string of the
    [catch], which names the capability; when it completes with [null],
    [run] answers the text [null].  The swap driver answers an
    arguments object in the same way once its test on the arguments has
    passed, and with the fixed text of that test otherwise: a string in
    either case. *)
Theorem run_undefined_result_is_error_string (name : string)
    (toolNameMap : gmap string Tool.t) (args : JsValue) (tool : Tool.t) :
  toolNameMap !! name = Some tool ->
  (Tool.execute tool args = Normal JUndefined ->
     let text := "An error occurred while running " +:+ name +:+ ": "
                   +:+ cannot_read_message "undefined" "toString" in
     contains text name
     /\ snd (Dexscreener.run name toolNameMap args) = Normal (JStr text)
     /\ forall toolType props,
          args = JObj props ->
          let answer :=
            if swap_guard toolType name props
            then "Error: Missing userPublicKey for swap operation."
            else text in
          executed (fst (Swap.run toolType name toolNameMap args))
          = (if swap_guard toolType name props then [] else [(tool, args)])
          /\ snd (Swap.run toolType name toolNameMap args) = Normal (JStr answer)
          /\ contains answer name)
  /\ (Tool.execute tool args = Normal JNull ->
      snd (Dexscreener.run name toolNameMap args) = Normal (JStr "null")
      /\ forall toolType props,
          args = JObj props ->
          executed (fst (Swap.run toolType name toolNameMap args))
          = (if swap_guard toolType name props then [] else [(tool, args)])
          /\ snd (Swap.run toolType name toolNameMap args)
             = Normal (JStr (if swap_guard toolType name props
                             then "Error: Missing userPublicKey for swap operation."
                             else "null"))).
Proof.
  intros Hreg. split; intros Hexec.
  - intros text.
    assert (D : snd (dispatch name toolNameMap args) = Normal (JStr text)).
    { now rewrite (dispatch_outcome _ _ _ _ Hreg), Hexec. }
    split; [apply contains_middle |]. split; [exact D |].
    intros toolType props -> answer. subst answer. rewrite swap_run_object.
    destruct (swap_guard toolType name props) eqn:G.
    + split; [reflexivity |]. split; [reflexivity |].
      unfold swap_guard in G.
      apply andb_prop in G as [G _]. apply andb_prop in G as [_ G].
      apply String.eqb_eq in G. subst name.
      now exists "Error: Missing userPublicKey for ", " operation.".
    + split; [now apply dispatch_registered |]. split; [exact D |].
      apply contains_middle.
  - assert (D : snd (dispatch name toolNameMap args) = Normal (JStr "null")).
    { now rewrite (dispatch_outcome _ _ _ _ Hreg), Hexec. }
    split; [exact D |].
    intros toolType props ->. rewrite swap_run_object.
    destruct (swap_guard toolType name props).
    + split; reflexivity.
    + split; [now apply dispatch_registered | exact D].
Qed.

Lemma run_undefined_result_is_error_string_witness :
  snd (Dexscreener.run "dexscreener_search_pairs"
         (<["dexscreener_search_pairs" := silent_tool]> ∅) (JObj []))
  = Normal (JStr ("An error occurred while running dexscreener_search_pairs: "
                    +:+ "Cannot read properties of undefined (reading 'toString')"))
  /\ snd (Swap.run Swap.dexscreener "dexscreener_search_pairs"
            (<["dexscreener_search_pairs" := silent_tool]> ∅) (JObj []))
     = Normal (JStr ("An error occurred while running dexscreener_search_pairs: "
                       +:+ "Cannot read properties of undefined (reading 'toString')"))
  /\ snd (Dexscreener.run "dexscreener_search_pairs"
            (<["dexscreener_search_pairs" := null_tool]> ∅) (JObj []))
     = Normal (JStr "null").
Proof.
  assert (Hsilent : (<["dexscreener_search_pairs" := silent_tool]> ∅ : gmap string Tool.t)
                      !! "dexscreener_search_pairs" = Some silent_tool) by reflexivity.
  assert (Hnull : (<["dexscreener_search_pairs" := null_tool]> ∅ : gmap string Tool.t)
                    !! "dexscreener_search_pairs" = Some null_tool) by reflexivity.
  destruct (run_undefined_result_is_error_string "dexscreener_search_pairs"
              (<["dexscreener_search_pairs" := silent_tool]> ∅) (JObj [])
              silent_tool Hsilent) as [Hundefined _].
  destruct (Hundefined eq_refl) as (_ & Hrun & Hswap).
  destruct (Hswap Swap.dexscreener [] eq_refl) as (_ & Hanswer & _).
  destruct (run_undefined_result_is_error_string "dexscreener_search_pairs"
              (<["dexscreener_search_pairs" := null_tool]> ∅) (JObj [])
              null_tool Hnull) as [_ Hnull'].
  destruct (Hnull' eq_refl) as [Hnullrun _].
  split; [exact Hrun |]. split; [exact Hanswer | exact Hnullrun].
Defined.

(** ** The precondition of the swap capability *)

Lemma swap_toCapability_run (tool : Tool.t) (toolType : Swap.ToolType)
    (toolNameMap registry : gmap string Tool.t) (capability : Capability.t) :
  Swap.toCapability tool toolType toolNameMap = inr (capability, registry) ->
  Swap.formattedName tool toolType = inr (Capability.name capability)
  /\ Capability.run capability = Swap.run toolType (Capability.name capability)
  /\ registry = <[Capability.name capability := tool]> toolNameMap.
Proof.
  unfold Swap.toCapability.
  destruct (Swap.formattedName tool toolType) as [e | formatted]; [discriminate |].
  intros [= <- <-]. simpl. auto.
Qed.

(** C8. A capability the swap driver builds for a Jupiter tool under the
    name [swap], called with an arguments object that has no
    [userPublicKey], answers the fixed text and does nothing else: no
    tool is executed, whatever the registry holds. *)
Theorem swap_without_userPublicKey_is_refused (tool : Tool.t)
    (toolNameMap registry : gmap string Tool.t) (capability : Capability.t)
    (current : gmap string Tool.t) (props : list (string * JsValue)) :
  Swap.toCapability tool Swap.jupiter toolNameMap = inr (capability, registry) ->
  Capability.name capability = "swap" ->
  has_key "userPublicKey" props = false ->
  Capability.run capability current (JObj props)
  = ([], Normal (JStr "Error: Missing userPublicKey for swap operation."))
  /\ executed (fst (Capability.run capability current (JObj props))) = [].
Proof.
  intros Hbuild Hname Hkey.
  destruct (swap_toCapability_run _ _ _ _ _ Hbuild) as (_ & -> & _).
  rewrite Hname, swap_run_object. unfold swap_guard. rewrite Hkey.
  split; reflexivity.
Qed.

Lemma swap_without_userPublicKey_is_refused_witness :
  Capability.run swap_capability (<["swap" := swap_tool]> ∅)
    (JObj [("inputMint"%string, JStr "So11111111111111111111111111111111111111112")])
  = ([], Normal (JStr "Error: Missing userPublicKey for swap operation."))
  /\ executed (fst (Capability.run swap_capability (<["swap" := swap_tool]> ∅)
        (JObj [("inputMint"%string, JStr "So11111111111111111111111111111111111111112")])))
     = [].
Proof.
  apply (swap_without_userPublicKey_is_refused swap_tool ∅
           (<["swap" := swap_tool]> ∅) swap_capability); reflexivity.
Defined.

(** ** The request observer *)

(** C9. On the arguments the completion call is declared to take (a
    request body object, then the optional request options), the
    installed function delegates to the original call once, with the
    argument list it received, and completes as the original does:
    apart from console output, the events and the completion are those
    of the call made directly. *)
Theorem create_is_transparent
    (originalCreateChatCompletion : list JsValue -> Completion JsValue)
    (body : list (string * JsValue)) (rest : list JsValue) :
  let args := JObj body :: rest in
  let wrapped := RequestObserver.create originalCreateChatCompletion args in
  let direct := RequestObserver.call_original originalCreateChatCompletion args in
  delegations (fst wrapped) = [args]
  /\ snd wrapped = originalCreateChatCompletion args
  /\ without_console (fst wrapped) = fst direct
  /\ snd wrapped = snd direct.
Proof.
  intros args wrapped direct. subst wrapped direct args.
  unfold RequestObserver.create, RequestObserver.call_original.
  cbn [hd truthy in_operator]. unfold_monad.
  destruct (existsb (String.eqb "tools") (map fst body)); simpl;
    repeat split; reflexivity.
Qed.

(** The same holds when the body is missing or falsy: the test stops at
    [body &&]. *)
Lemma create_is_transparent_without_body
    (originalCreateChatCompletion : list JsValue -> Completion JsValue)
    (args : list JsValue) :
  truthy (hd JUndefined args) = false ->
  RequestObserver.create originalCreateChatCompletion args
  = RequestObserver.call_original originalCreateChatCompletion args.
Proof.
  intros H. unfold RequestObserver.create, RequestObserver.call_original.
  rewrite H. reflexivity.
Qed.

(** ** The long-description guard of the CoinGecko driver *)

Lemma substring_0_length (n : nat) (s : string) :
  n <= String.length s -> String.length (String.substring 0 n s) = n.
Proof.
  revert s. induction n as [|n IH]; intros s H.
  - now destruct s.
  - destruct s as [|c s]; simpl in *; [lia |]. rewrite IH; [reflexivity | lia].
Qed.

Lemma substring_0_append (a b : string) :
  String.substring 0 (String.length a) (a +:+ b) = a.
Proof.
  induction a as [|c a IH]; simpl.
  - now destruct b.
  - now rewrite IH.
Qed.

Lemma descLength_long (tool : Tool.t) :
  1000 < String.length (Tool.description tool) ->
  Coingecko.descLength tool = String.length (Tool.description tool).
Proof.
  unfold Coingecko.descLength.
  destruct (String.eqb_spec (Tool.description tool) EmptyString) as [-> | _];
    simpl; [lia | reflexivity].
Qed.

Lemma truncate_description_length (tool : Tool.t) :
  1000 < String.length (Tool.description tool) ->
  String.length (Tool.description (Coingecko.truncate tool)) = 1015.
Proof.
  intros H. cbn [Coingecko.truncate Tool.description].
  rewrite length_append, substring_0_length by lia. reflexivity.
Qed.

(** A second visit of a tool already cut changes nothing. *)
Lemma truncate_idempotent (tool : Tool.t) :
  1000 < String.length (Tool.description tool) ->
  Coingecko.truncate (Coingecko.truncate tool) = Coingecko.truncate tool.
Proof.
  intros H. unfold Coingecko.truncate at 1 3. cbn [Tool.name Tool.parameters Tool.execute].
  f_equal. cbn [Coingecko.truncate Tool.description].
  pose proof (substring_0_length 1000 (Tool.description tool) ltac:(lia)) as L.
  rewrite <- L at 1. now rewrite substring_0_append.
Qed.

Lemma check_description_other (heap : gmap nat Tool.t) (ref other : nat) :
  ref <> other -> Coingecko.check_description heap other !! ref = heap !! ref.
Proof.
  intros Hne. unfold Coingecko.check_description.
  destruct (heap !! other) as [tool|]; [| reflexivity].
  destruct (1000 <? Coingecko.descLength tool); [| reflexivity].
  now rewrite lookup_insert_ne.
Qed.

Lemma check_descriptions_keeps_cut (tools : list nat) (heap : gmap nat Tool.t)
    (ref : nat) (tool : Tool.t) :
  1000 < String.length (Tool.description tool) ->
  heap !! ref = Some (Coingecko.truncate tool) ->
  Coingecko.check_descriptions tools heap !! ref = Some (Coingecko.truncate tool).
Proof.
  intros Hlong. revert heap.
  induction tools as [|r tools IH]; intros heap H; [exact H |].
  cbn [Coingecko.check_descriptions fold_left]. apply IH.
  destruct (Nat.eq_dec ref r) as [<- | Hne].
  - unfold Coingecko.check_description. rewrite H.
    destruct (1000 <? Coingecko.descLength (Coingecko.truncate tool)); [| exact H].
    rewrite lookup_insert_eq. now rewrite truncate_idempotent.
  - now rewrite check_description_other.
Qed.

Lemma check_descriptions_cuts (tools : list nat) (heap : gmap nat Tool.t)
    (ref : nat) (tool : Tool.t) :
  1000 < String.length (Tool.description tool) ->
  In ref tools ->
  heap !! ref = Some tool ->
  Coingecko.check_descriptions tools heap !! ref = Some (Coingecko.truncate tool).
Proof.
  intros Hlong. revert heap.
  induction tools as [|r tools IH]; intros heap Hin H; [destruct Hin |].
  cbn [Coingecko.check_descriptions fold_left].
  destruct (Nat.eq_dec ref r) as [<- | Hne].
  - apply check_descriptions_keeps_cut; [exact Hlong |].
    unfold Coingecko.check_description. rewrite H.
    rewrite descLength_long by exact Hlong.
    destruct (Nat.ltb_spec 1000 (String.length (Tool.description tool))); [| lia].
    apply lookup_insert_eq.
  - apply IH.
    + destruct Hin as [-> | Hin]; [contradiction | exact Hin].
    + now rewrite check_description_other.
Qed.

(** C3. In the CoinGecko driver, a tool that is kept and whose
    description is longer than 1000 characters gets a capability whose
    description is the first 1000 characters of the original one
    followed by the suffix "... (truncated)", 1015 characters in all. *)
Theorem long_description_is_truncated (allTools : list nat)
    (heap : gmap nat Tool.t) (toolNameMap : gmap string nat)
    (i ref : nat) (tool : Tool.t) :
  let built := Coingecko.setup allTools heap toolNameMap in
  Coingecko.tools built !! i = Some ref ->
  heap !! ref = Some tool ->
  1000 < String.length (Tool.description tool) ->
  exists capability,
    Coingecko.capabilities built !! i = Some (Some capability)
    /\ Capability.description capability
       = String.substring 0 1000 (Tool.description tool) +:+ "... (truncated)"
    /\ String.length (String.substring 0 1000 (Tool.description tool)) = 1000
    /\ Capability.name capability = formatToolName (Tool.name tool).
Proof.
  intros built Hi Hheap Hlong. subst built.
  unfold Coingecko.setup in *. cbn [Coingecko.tools Coingecko.capabilities] in *.
  set (tools := List.filter (Coingecko.kept heap) allTools) in *.
  assert (Hin : In ref tools).
  { apply list_elem_of_In. eapply list_elem_of_lookup_2. exact Hi. }
  pose proof (check_descriptions_cuts tools heap ref tool Hlong Hin Hheap) as Hcut.
  exists {| Capability.name := formatToolName (Tool.name tool);
            Capability.description := Tool.description (Coingecko.truncate tool);
            Capability.schema := Tool.parameters tool;
            Capability.run := Coingecko.run (formatToolName (Tool.name tool)) |}.
  split.
  - rewrite list_lookup_fmap, Hi. cbn [fmap option_fmap option_map].
    unfold Coingecko.toCapability. now rewrite Hcut.
  - cbn [Capability.description Capability.name]. split; [reflexivity |].
    split; [apply substring_0_length; lia | reflexivity].
Qed.

Lemma long_description_is_truncated_witness :
  exists capability,
    Coingecko.capabilities (Coingecko.setup [7] (<[7 := verbose_tool]> ∅) ∅) !! 0
    = Some (Some capability)
    /\ Capability.description capability
       = String.substring 0 1000 long_description +:+ "... (truncated)"
    /\ String.length (String.substring 0 1000 long_description) = 1000
    /\ Capability.name capability = formatToolName "coingecko.get_coin_prices".
Proof.
  apply (long_description_is_truncated [7] (<[7 := verbose_tool]> ∅) ∅ 0 7 verbose_tool).
  - reflexivity.
  - reflexivity.
  - vm_compute. lia.
Defined.

(** ** The registry: last write wins *)

Lemma register_tools_other (tools : list Tool.t) (toolNameMap : gmap string Tool.t)
    (name : string) :
  (forall tool, In tool tools -> formatToolName (Tool.name tool) <> name) ->
  Dexscreener.register_tools tools toolNameMap !! name = toolNameMap !! name.
Proof.
  revert toolNameMap.
  induction tools as [|tool tools IH]; intros toolNameMap H; [reflexivity |].
  cbn [Dexscreener.register_tools fold_left].
  unfold Dexscreener.register_tools in IH. rewrite IH.
  - apply lookup_insert_ne. apply H. now left.
  - intros tool' Hin. apply H. now right.
Qed.

Lemma register_tools_last (before after : list Tool.t) (tool : Tool.t)
    (toolNameMap : gmap string Tool.t) :
  (forall later, In later after ->
     formatToolName (Tool.name later) <> formatToolName (Tool.name tool)) ->
  Dexscreener.register_tools (before ++ tool :: after) toolNameMap
    !! formatToolName (Tool.name tool) = Some tool.
Proof.
  intros H. unfold Dexscreener.register_tools.
  rewrite fold_left_app. cbn [fold_left].
  rewrite (register_tools_other after _ _ H). apply lookup_insert_eq.
Qed.

Lemma swap_executed_object (toolType : Swap.ToolType) (name : string)
    (toolNameMap : gmap string Tool.t) (tool : Tool.t)
    (props : list (string * JsValue)) :
  toolNameMap !! name = Some tool ->
  executed (fst (Swap.run toolType name toolNameMap (JObj props)))
  = if swap_guard toolType name props then [] else [(tool, JObj props)].
Proof.
  intros H. rewrite swap_run_object.
  destruct (swap_guard toolType name props); [reflexivity |].
  now apply dispatch_registered.
Qed.

(** C4, as amended.  When two tools are registered under one formatted
    name, the registry holds the one registered last and holds no other
    under that name; no build fails because of the collision.  A call of
    either capability executes that last tool, once, on the arguments of
    the call, except a call the swap driver's test on the arguments
    answers first (a Jupiter capability named [swap] called without
    [userPublicKey]), which executes nothing. *)
Theorem last_registered_tool_is_executed :
  (forall (allTools before between after : list Tool.t) (t1 t2 : Tool.t)
          (toolNameMap : gmap string Tool.t) (args : JsValue),
      List.filter (fun tool => String.prefix "dexscreener" (Tool.name tool)) allTools
      = before ++ t1 :: between ++ t2 :: after ->
      formatToolName (Tool.name t1) = formatToolName (Tool.name t2) ->
      (forall later, In later after ->
         formatToolName (Tool.name later) <> formatToolName (Tool.name t2)) ->
      let capabilities := fst (Dexscreener.setup allTools toolNameMap) in
      let registry := snd (Dexscreener.setup allTools toolNameMap) in
      let c1 := Dexscreener.toCapability t1 in
      let c2 := Dexscreener.toCapability t2 in
      In c1 capabilities /\ In c2 capabilities
      /\ Capability.name c1 = Capability.name c2
      /\ registry !! Capability.name c2 = Some t2
      /\ (forall tool, registry !! Capability.name c2 = Some tool -> tool = t2)
      /\ executed (fst (Capability.run c1 registry args)) = [(t2, args)]
      /\ executed (fst (Capability.run c2 registry args)) = [(t2, args)])
  /\ (forall (t1 t2 : Tool.t) (ty1 ty2 : Swap.ToolType) (name : string)
             (toolNameMap : gmap string Tool.t),
      Swap.formattedName t1 ty1 = inr name ->
      Swap.formattedName t2 ty2 = inr name ->
      exists c1 registry1 c2 registry2,
        Swap.toCapability t1 ty1 toolNameMap = inr (c1, registry1)
        /\ Swap.toCapability t2 ty2 registry1 = inr (c2, registry2)
        /\ Capability.name c1 = name /\ Capability.name c2 = name
        /\ registry2 !! name = Some t2
        /\ (forall tool, registry2 !! name = Some tool -> tool = t2)
        /\ forall props,
             executed (fst (Capability.run c1 registry2 (JObj props)))
             = (if swap_guard ty1 name props then [] else [(t2, JObj props)])
             /\ executed (fst (Capability.run c2 registry2 (JObj props)))
                = (if swap_guard ty2 name props then [] else [(t2, JObj props)])).
Proof.
  split.
  - intros allTools before between after t1 t2 toolNameMap args Hfilter Hname Hlast
           capabilities registry c1 c2.
    subst capabilities registry c1 c2. unfold Dexscreener.setup.
    cbn [fst snd]. rewrite Hfilter.
    assert (Hreg : Dexscreener.register_tools (before ++ t1 :: between ++ t2 :: after)
                     toolNameMap !! formatToolName (Tool.name t2) = Some t2).
    { replace (before ++ t1 :: between ++ t2 :: after)
        with ((before ++ t1 :: between) ++ t2 :: after)
        by (now rewrite <- app_assoc).
      now apply register_tools_last. }
    cbn [Dexscreener.toCapability Capability.name Capability.run].
    unfold Dexscreener.run. rewrite Hname.
    repeat split.
    + apply in_map, in_or_app. right. now left.
    + apply in_map, in_or_app. right. right. apply in_or_app. right. now left.
    + exact Hreg.
    + intros tool H. rewrite Hreg in H. now injection H.
    + now apply dispatch_registered.
    + now apply dispatch_registered.
  - intros t1 t2 ty1 ty2 name toolNameMap H1 H2.
    unfold Swap.toCapability. rewrite H1, H2.
    do 4 eexists. split; [reflexivity |]. split; [reflexivity |].
    cbn [Capability.name Capability.run].
    assert (Hreg : <[name := t2]> (<[name := t1]> toolNameMap) !! name = Some t2)
      by apply lookup_insert_eq.
    split; [reflexivity |]. split; [reflexivity |]. split; [exact Hreg |].
    split; [intros tool H; rewrite Hreg in H; now injection H |].
    intros props. split; now apply swap_executed_object.
Qed.

Lemma last_registered_tool_is_executed_witness :
  (let registry := snd (Dexscreener.setup [pairs_tool_a; pairs_tool_b] ∅) in
   registry !! "dexscreener_search_pairs" = Some pairs_tool_b
   /\ executed (fst (Capability.run (Dexscreener.toCapability pairs_tool_a)
                       registry (JObj [])))
      = [(pairs_tool_b, JObj [])])
  /\ exists c1 registry1 c2 registry2,
       Swap.toCapability swap_tool_a Swap.jupiter ∅ = inr (c1, registry1)
       /\ Swap.toCapability swap_tool_b Swap.jupiter registry1 = inr (c2, registry2)
       /\ registry2 !! "swap" = Some swap_tool_b.
Proof.
  destruct last_registered_tool_is_executed as [Hdex Hswap]. split.
  - destruct (Hdex [pairs_tool_a; pairs_tool_b] [] [] [] pairs_tool_a pairs_tool_b
                ∅ (JObj []))
      as (_ & _ & _ & Hreg & _ & Hrun & _).
    + reflexivity.
    + reflexivity.
    + intros later [].
    + split; [exact Hreg | exact Hrun].
  - destruct (Hswap swap_tool_a swap_tool_b Swap.jupiter Swap.jupiter "swap" ∅)
      as (c1 & r1 & c2 & r2 & B1 & B2 & _ & _ & Hreg & _).
    + reflexivity.
    + reflexivity.
    + exists c1, r1, c2, r2. auto.
Defined.

(** C4 as the claim states it fails in the swap driver: two Jupiter
    tools both named [swap] after aliasing, the second registered last;
    the call with an arguments object that has no [userPublicKey]
    executes no tool at all. *)
Lemma last_registered_tool_not_executed_counterexample :
  exists c1 registry1 c2 registry2,
    Swap.toCapability swap_tool_a Swap.jupiter ∅ = inr (c1, registry1)
    /\ Swap.toCapability swap_tool_b Swap.jupiter registry1 = inr (c2, registry2)
    /\ Capability.name c1 = Capability.name c2
    /\ registry2 !! Capability.name c2 = Some swap_tool_b
    /\ Capability.run c2 registry2 (JObj [])
       = ([], Normal (JStr "Error: Missing userPublicKey for swap operation."))
    /\ executed (fst (Capability.run c2 registry2 (JObj []))) <> [(swap_tool_b, JObj [])].
Proof.
  do 4 eexists. split; [reflexivity |]. split; [reflexivity |].
  cbn [Capability.name Capability.run].
  split; [reflexivity |]. split; [apply lookup_insert_eq |].
  split; [reflexivity |]. discriminate.
Qed.

(** ** What the [run] closure holds *)

Lemma normalize_no_execution (response : JsValue) :
  executed (fst (normalize response)) = [].
Proof.
  unfold normalize. destruct (String.eqb (typeof response) "object"); [reflexivity |].
  unfold_monad. now destruct (toString response).
Qed.

(** The Allora closure executes the tool it was built from. *)
Lemma allora_run_executed (tool : Tool.t) (capabilityName : string)
    (toolNameMap : gmap string Tool.t) (args : JsValue) :
  executed (fst (Allora.run tool capabilityName toolNameMap args)) = [(tool, args)].
Proof.
  unfold Allora.run. unfold_monad.
  destruct (Tool.execute tool args) as [response | e |]; simpl; try reflexivity.
  destruct (String.eqb (typeof response) "object"); simpl; [reflexivity |].
  destruct (toString response); reflexivity.
Qed.

(** C5, as amended.  In the DexScreener, CoinGecko and swap drivers the
    [run] closure is determined by the formatted name (and, in the swap
    driver, the tool type) and not by the tool: it executes whatever
    tool the registry holds under that name when it is called, so a tool
    registered under the name after the build is the one a later call
    executes (unless the swap driver's test on the arguments answers
    first).  In the Allora driver the closure holds the tool itself and
    executes it whatever a registry holds. *)
Theorem run_resolves_tool_at_call_time :
  (forall (tool replacement : Tool.t) (toolNameMap : gmap string Tool.t)
          (args : JsValue),
      let capability := Dexscreener.toCapability tool in
      Capability.run capability = Dexscreener.run (Capability.name capability)
      /\ executed (fst (Capability.run capability
                          (<[Capability.name capability := replacement]> toolNameMap)
                          args))
         = [(replacement, args)])
  /\ (forall (heap : gmap nat Tool.t) (ref : nat) (capability : Capability.t)
             (replacement : Tool.t) (toolNameMap : gmap string Tool.t)
             (args : JsValue),
      Coingecko.toCapability heap ref = Some capability ->
      Capability.run capability = Coingecko.run (Capability.name capability)
      /\ executed (fst (Capability.run capability
                          (<[Capability.name capability := replacement]> toolNameMap)
                          args))
         = [(replacement, args)])
  /\ (forall (tool replacement : Tool.t) (toolType : Swap.ToolType)
             (before after toolNameMap : gmap string Tool.t)
             (capability : Capability.t) (props : list (string * JsValue)),
      Swap.toCapability tool toolType before = inr (capability, after) ->
      Capability.run capability = Swap.run toolType (Capability.name capability)
      /\ executed (fst (Capability.run capability
                          (<[Capability.name capability := replacement]> toolNameMap)
                          (JObj props)))
         = (if swap_guard toolType (Capability.name capability) props
            then [] else [(replacement, JObj props)]))
  /\ (forall (tool : Tool.t) (capability : Capability.t)
             (toolNameMap : gmap string Tool.t) (args : JsValue),
      Allora.toCapability tool = Some capability ->
      executed (fst (Capability.run capability toolNameMap args)) = [(tool, args)]).
Proof.
  split; [| split; [| split]].
  - intros tool replacement toolNameMap args capability. subst capability.
    cbn [Dexscreener.toCapability Capability.name Capability.run].
    split; [reflexivity |].
    apply dispatch_registered, lookup_insert_eq.
  - intros heap ref capability replacement toolNameMap args.
    unfold Coingecko.toCapability.
    destruct (heap !! ref) as [tool|]; [| discriminate].
    intros [= <-]. cbn [Capability.name Capability.run].
    split; [reflexivity |].
    apply dispatch_registered, lookup_insert_eq.
  - intros tool replacement toolType before after toolNameMap capability props Hbuild.
    destruct (swap_toCapability_run _ _ _ _ _ Hbuild) as (_ & Hrun & _).
    split; [exact Hrun |].
    rewrite Hrun. apply swap_executed_object, lookup_insert_eq.
  - intros tool capability toolNameMap args. unfold Allora.toCapability.
    destruct (Allora.capabilityName tool) as [name|]; [| discriminate].
    intros [= <-]. cbn [Capability.run]. apply allora_run_executed.
Qed.

Lemma run_resolves_tool_at_call_time_witness :
  executed (fst (Capability.run swap_capability (<["swap" := swap_tool_a]> ∅)
                   (JObj [("userPublicKey"%string, JStr "key")])))
  = [(swap_tool_a, JObj [("userPublicKey"%string, JStr "key")])]
  /\ executed (fst (Capability.run prediction_capability
                      (<["get_price_prediction" := other_prediction_tool]> ∅) (JObj [])))
     = [(prediction_tool, JObj [])].
Proof.
  destruct run_resolves_tool_at_call_time as (_ & _ & Hswap & Hallora). split.
  - assert (Hbuild : Swap.toCapability swap_tool Swap.jupiter ∅
                      = inr (swap_capability, <["swap" := swap_tool]> ∅))
      by reflexivity.
    destruct (Hswap swap_tool swap_tool_a Swap.jupiter ∅ (<["swap" := swap_tool]> ∅) ∅
                swap_capability [("userPublicKey"%string, JStr "key")] Hbuild)
      as [_ Hrun].
    exact Hrun.
  - apply (Hallora prediction_tool prediction_capability). reflexivity.
Defined.

(** C5 as the claim states it fails in the Allora driver: the capability
    built from one tool still executes that tool after another tool has
    been registered under the capability's name. *)
Lemma allora_run_ignores_registry_counterexample :
  Allora.toCapability prediction_tool = Some prediction_capability
  /\ Capability.name prediction_capability = "get_price_prediction"
  /\ executed (fst (Capability.run prediction_capability
                      (<["get_price_prediction" := other_prediction_tool]> ∅) (JObj [])))
     = [(prediction_tool, JObj [])]
  /\ snd (Capability.run prediction_capability
            (<["get_price_prediction" := other_prediction_tool]> ∅) (JObj []))
     = Normal (JStr "from the tool of the build")
  /\ executed (fst (Capability.run prediction_capability
                      (<["get_price_prediction" := other_prediction_tool]> ∅) (JObj [])))
     <> [(other_prediction_tool, JObj [])].
Proof.
  split; [reflexivity |]. split; [reflexivity |]. split; [reflexivity |].
  split; [reflexivity |].
  discriminate.
Qed.

(** ** Round trip of the JSON text *)

Lemma parse_string_chars_quote_char (c : ascii) (tail : string) :
  parse_string_chars (quote_char c +:+ tail) = prepend c (parse_string_chars tail).
Proof.
  destruct c as [[] [] [] [] [] [] [] []]; reflexivity.
Qed.

Lemma parse_string_chars_quote_chars (s rest : string) :
  parse_string_chars (quote_chars s +:+ String DQUOTE rest) = Some (s, rest).
Proof.
  induction s as [|c s IH]; [reflexivity |].
  cbn [quote_chars]. rewrite append_assoc, parse_string_chars_quote_char, IH.
  reflexivity.
Qed.

Lemma value_start_facts (c : ascii) :
  value_start c = true ->
  is_ws c = false /\ Ascii.eqb c "]" = false /\ Ascii.eqb c "}" = false.
Proof.
  destruct c as [[] [] [] [] [] [] [] []]; (discriminate || (intros _; repeat split)).
Qed.

Lemma skip_ws_value (s : string) :
  starts_with value_start s = true -> skip_ws s = s.
Proof.
  destruct s as [|c s]; [reflexivity |]. cbn [starts_with skip_ws]. intros H.
  now destruct (value_start_facts c H) as (-> & _).
Qed.

Lemma skip_ws_indent (w s : string) :
  ws_only w = true -> skip_ws (w +:+ s) = skip_ws s.
Proof.
  induction w as [|c w IH]; [reflexivity |]. cbn [ws_only]. intros H.
  apply andb_prop in H as [Hc Hw]. rewrite append_cons. cbn [skip_ws].
  rewrite Hc. now apply IH.
Qed.

Lemma ws_only_append (a b : string) :
  ws_only a = true -> ws_only b = true -> ws_only (a +:+ b) = true.
Proof.
  induction a as [|c a IH]; [easy |]. cbn [ws_only]. intros H Hb.
  apply andb_prop in H as [Hc Ha]. rewrite append_cons. cbn [ws_only].
  now rewrite Hc, IH.
Qed.

Lemma digit_of_digit_char (d : digits) : digit_of (digit_char d) = Some d.
Proof. destruct d; reflexivity. Qed.

Lemma string_of_digits_app (a b : list digits) :
  string_of_digits (a ++ b) = string_of_digits a +:+ string_of_digits b.
Proof.
  induction a as [|d a IH]; [reflexivity |].
  cbn [app string_of_digits]. now rewrite append_cons, IH.
Qed.

Lemma lex_digits_string_of_digits (l : list digits) (rest : string) :
  starts_with is_digit rest = false ->
  lex_digits (string_of_digits l +:+ rest) = (l, rest).
Proof.
  intros H. induction l as [|d l IH].
  - cbn [string_of_digits String.append]. destruct rest as [|c rest]; [reflexivity |].
    cbn [lex_digits]. unfold starts_with, is_digit in H.
    destruct (digit_of c); [discriminate | reflexivity].
  - cbn [string_of_digits]. rewrite append_cons. cbn [lex_digits].
    now rewrite digit_of_digit_char, IH.
Qed.

Lemma string_of_uint_digits (d : uint) :
  NilEmpty.string_of_uint d = string_of_digits (to_list d).
Proof.
  induction d; cbn [NilEmpty.string_of_uint to_list string_of_digits digit_char];
    congruence.
Qed.

Lemma string_of_N_digits (n : N) :
  string_of_N n = string_of_digits (to_list (N.to_uint n)) /\ to_list (N.to_uint n) <> [].
Proof.
  unfold string_of_N, NilZero.string_of_uint.
  assert (Hnil : N.to_uint n <> Nil).
  { destruct n as [|p]; [discriminate |]. apply DecimalPos.Unsigned.to_uint_nonnil. }
  destruct (N.to_uint n) eqn:E; try congruence;
    (split; [rewrite string_of_uint_digits; reflexivity | discriminate]).
Qed.

Lemma lnzhead_replicate (j : nat) (l : list digits) :
  lnzhead (replicate j d0 ++ l) = lnzhead l.
Proof. induction j as [|j IH]; [reflexivity | exact IH]. Qed.

Lemma rev_replicate (j : nat) (d : digits) : rev (replicate j d) = replicate j d.
Proof.
  induction j as [|j IH]; [reflexivity |]. cbn [replicate rev]. rewrite IH.
  clear IH. induction j as [|j IH]; [reflexivity |]. cbn [replicate app]. now rewrite IH.
Qed.

Lemma trimmed_facts (s : list digits) :
  trimmed s = true ->
  s <> [] /\ lnzhead s = s /\ lnzhead (rev s) = rev s
  /\ exists d rest, s = d :: rest /\ d <> d0.
Proof.
  unfold trimmed. destruct s as [|d rest]; [cbn; discriminate |].
  destruct (rev (d :: rest)) as [|d' front] eqn:E.
  - apply (f_equal (@length digits)) in E. rewrite length_rev in E. discriminate.
  - intros H. assert (Hd : d <> d0) by (intros ->; discriminate).
    assert (Hd' : d' <> d0) by (intros ->; destruct d; rewrite ?E in H; congruence).
    repeat split.
    + discriminate.
    + now destruct d.
    + now destruct d'.
    + now exists d, rest.
Qed.

Lemma strip_trailing_zeros (s : list digits) (j : nat) :
  trimmed s = true -> Binary64.strip_trailing (s ++ replicate j d0) = s.
Proof.
  intros H. destruct (trimmed_facts s H) as (_ & _ & Hrev & _).
  unfold Binary64.strip_trailing.
  rewrite rev_app_distr, rev_replicate, lnzhead_replicate, Hrev.
  apply rev_involutive.
Qed.

Lemma significant_zeros_after (s : list digits) (j : nat) (point : Z) :
  trimmed s = true -> significant (s ++ replicate j d0) point = (s, point).
Proof.
  intros H. destruct (trimmed_facts s H) as (_ & _ & _ & d & rest & -> & Hd).
  unfold significant.
  assert (Hhead : lnzhead ((d :: rest) ++ replicate j d0) = (d :: rest) ++ replicate j d0)
    by now destruct d.
  rewrite Hhead, (strip_trailing_zeros _ _ H). f_equal. lia.
Qed.

Lemma significant_zeros_before (s : list digits) (j : nat) (point : Z) :
  trimmed s = true ->
  significant (replicate j d0 ++ s) point = (s, (point - Z.of_nat j)%Z).
Proof.
  intros H. destruct (trimmed_facts s H) as (_ & Hhead & _ & _).
  unfold significant. rewrite lnzhead_replicate, Hhead.
  pose proof (strip_trailing_zeros s 0 H) as Hs. cbn [replicate] in Hs.
  rewrite app_nil_r in Hs. rewrite Hs. f_equal.
  rewrite length_app, length_replicate. lia.
Qed.

Lemma significant_trimmed (s : list digits) (point : Z) :
  trimmed s = true -> significant s point = (s, point).
Proof.
  intros H. pose proof (significant_zeros_after s 0 point H) as Hs.
  cbn [replicate] in Hs. now rewrite app_nil_r in Hs.
Qed.

Lemma same_digits_eq (a b : list digits) : same_digits a b = true -> a = b.
Proof.
  revert b. induction a as [|x a IH]; intros [|y b]; cbn [same_digits];
    try discriminate; [reflexivity |].
  intros H. apply andb_prop in H as [Hxy Hab]. f_equal; [| now apply IH].
  destruct x, y; (reflexivity || discriminate).
Qed.

Lemma is_double_to_number (negative : bool) (s : list digits) (n : Z) :
  is_double (NDec negative s n) = true ->
  trimmed s = true /\ to_number negative s n = Some (NDec negative s n).
Proof.
  cbn [is_double]. intros H. apply andb_prop in H as [Ht H]. split; [exact Ht |].
  destruct (to_number negative s n) as [[|negative' s' n'| |]|]; try discriminate.
  apply andb_prop in H as [H Hn]. apply andb_prop in H as [Hneg Hs].
  apply Bool.eqb_prop in Hneg as <-. apply same_digits_eq in Hs as <-.
  apply Z.eqb_eq in Hn as <-. reflexivity.
Qed.

Lemma parse_number_lexed (negative : bool) (s r1 r2 r3 : string)
    (i f : list digits) (x : Z) (number : JsNumber) :
  lex_digits s = (i, r1) ->
  proper_integer i = true ->
  lex_fraction r1 = Some (f, r2) ->
  lex_exponent r2 = Some (x, r3) ->
  to_number negative (i ++ f) (Z.of_nat (length i) + x) = Some number ->
  parse_number negative s = Some (JNum number, r3).
Proof.
  intros Hi Hproper Hf Hx Hn. unfold parse_number. rewrite Hi.
  destruct i as [|d [|d' i]]; [discriminate | |].
  - destruct d; now rewrite Hf, Hx, Hn.
  - destruct d; [discriminate | ..]; now rewrite Hf, Hx, Hn.
Qed.

Lemma delimited_facts (rest : string) :
  delimited rest = true ->
  starts_with is_digit rest = false
  /\ lex_fraction rest = Some ([], rest)
  /\ lex_exponent rest = Some (0%Z, rest).
Proof.
  destruct rest as [|c rest]; [easy |]. cbn [delimited starts_with].
  destruct c as [[] [] [] [] [] [] [] []]; (discriminate || (intros _; repeat split)).
Qed.

Lemma lex_exponent_text (n : Z) (rest : string) :
  n <> 0%Z ->
  starts_with is_digit rest = false ->
  lex_exponent
    (String "e" (String (if (0 <? n)%Z then "+" else "-")%char
                   (string_of_N (Z.abs_N n))) +:+ rest)
  = Some (n, rest).
Proof.
  intros Hn Hrest. destruct (string_of_N_digits (Z.abs_N n)) as [-> Hnil].
  rewrite !append_cons. cbn [lex_exponent Ascii.eqb Bool.eqb orb].
  assert (Hvalue : Z.of_N (N.of_uint (of_list (to_list (N.to_uint (Z.abs_N n))))) = Z.abs n).
  { rewrite of_list_to_list, DecimalN.Unsigned.of_to. apply N2Z.inj_abs_N. }
  destruct (0 <? n)%Z eqn:Hsign; cbn [Ascii.eqb Bool.eqb];
    unfold lex_exponent_digits; rewrite lex_digits_string_of_digits by exact Hrest;
    (destruct (to_list (N.to_uint (Z.abs_N n))) eqn:E; [congruence |]);
    rewrite Hvalue; do 2 f_equal; lia.
Qed.

Lemma to_number_significant (negative : bool) (a b : list digits) (p q : Z) :
  significant a p = significant b q ->
  to_number negative a p = to_number negative b q.
Proof. intros H. unfold to_number. now rewrite H. Qed.

Lemma proper_integer_head (d : digits) (tail : list digits) :
  d <> d0 -> proper_integer (d :: tail) = true.
Proof. destruct d; (congruence || reflexivity). Qed.

Lemma lex_fraction_digits (f : list digits) (rest : string) :
  f <> [] ->
  starts_with is_digit rest = false ->
  lex_fraction (String "." (string_of_digits f +:+ rest)) = Some (f, rest).
Proof.
  intros Hf Hrest. cbn [lex_fraction Ascii.eqb Bool.eqb].
  rewrite lex_digits_string_of_digits by exact Hrest.
  destruct f; [congruence | reflexivity].
Qed.

Lemma parse_number_toString (negative : bool) (s : list digits) (n : Z) (rest : string) :
  is_double (NDec negative s n) = true ->
  delimited rest = true ->
  parse_number negative (digits_toString s n +:+ rest)
  = Some (JNum (NDec negative s n), rest).
Proof.
  intros Hdouble Hrest. destruct (is_double_to_number _ _ _ Hdouble) as [Ht Hn].
  destruct (delimited_facts rest Hrest) as (Hdig & Hfrac & Hexp).
  destruct (trimmed_facts s Ht) as (_ & _ & _ & d & tail & Hs & Hd0).
  unfold digits_toString.
  destruct ((Z.of_nat (length s) <=? n)%Z && (n <=? 21)%Z) eqn:C1;
    [| destruct ((0 <? n)%Z && (n <=? 21)%Z) eqn:C2;
       [| destruct ((-6 <? n)%Z && (n <=? 0)%Z) eqn:C3]].
  - apply andb_prop in C1 as [Hk _]. apply Z.leb_le in Hk.
    eapply (parse_number_lexed negative)
      with (i := s ++ zeros (n - Z.of_nat (length s))) (f := []) (x := 0%Z).
    + now apply lex_digits_string_of_digits.
    + subst s. now apply proper_integer_head.
    + exact Hfrac.
    + exact Hexp.
    + rewrite <- Hn. apply to_number_significant. rewrite app_nil_r. unfold zeros.
      rewrite significant_zeros_after, significant_trimmed by exact Ht.
      f_equal. rewrite length_app, length_replicate. lia.
  - apply andb_prop in C2 as [Hpos Hn21]. apply Z.ltb_lt in Hpos.
    rewrite Hn21, andb_true_r in C1. apply Z.leb_gt in C1.
    rewrite append_assoc, append_cons.
    eapply (parse_number_lexed negative)
      with (i := take (Z.to_nat n) s) (f := drop (Z.to_nat n) s) (x := 0%Z).
    + now apply lex_digits_string_of_digits.
    + subst s. destruct (Z.to_nat n) as [|m] eqn:E; [lia |].
      cbn [take]. now apply proper_integer_head.
    + apply lex_fraction_digits; [| exact Hdig].
      intros Hnil. apply (f_equal (@length digits)) in Hnil.
      rewrite length_drop in Hnil. cbn [length] in Hnil. lia.
    + exact Hexp.
    + rewrite <- Hn. apply to_number_significant. rewrite take_drop.
      f_equal. rewrite length_take. lia.
  - apply andb_prop in C3 as [Hlow Hhigh]. apply Z.ltb_lt in Hlow. apply Z.leb_le in Hhigh.
    rewrite !append_cons.
    change (String "0" (String "." (string_of_digits (zeros (- n) ++ s) +:+ rest)))
      with (string_of_digits [d0]
              +:+ String "." (string_of_digits (zeros (- n) ++ s) +:+ rest)).
    eapply (parse_number_lexed negative)
      with (i := [d0]) (f := zeros (- n) ++ s) (x := 0%Z).
    + now apply lex_digits_string_of_digits.
    + reflexivity.
    + apply lex_fraction_digits; [| exact Hdig]. subst s. now destruct (zeros (- n)).
    + exact Hexp.
    + rewrite <- Hn. apply to_number_significant. unfold zeros.
      change ([d0] ++ replicate (Z.to_nat (- n)) d0 ++ s)
        with (replicate (S (Z.to_nat (- n))) d0 ++ s).
      rewrite significant_zeros_before, significant_trimmed by exact Ht.
      f_equal. cbn [length]. lia.
  - assert (Hn1 : (n - 1)%Z <> 0%Z).
    { destruct (n <=? 21)%Z eqn:H21.
      - rewrite andb_true_r in C2. apply Z.ltb_ge in C2.
        assert (H0 : (n <=? 0)%Z = true) by now apply Z.leb_le.
        rewrite H0, andb_true_r in C3. apply Z.ltb_ge in C3. lia.
      - apply Z.leb_gt in H21. lia. }
    subst s. destruct tail as [|d' tail].
    + rewrite append_cons.
      change (String (digit_char d) ?t) with (string_of_digits [d] +:+ t).
      eapply (parse_number_lexed negative)
        with (i := [d]) (f := []) (x := (n - 1)%Z).
      * now apply lex_digits_string_of_digits.
      * now apply proper_integer_head.
      * reflexivity.
      * now apply lex_exponent_text.
      * rewrite <- Hn. apply to_number_significant. cbn [app length]. f_equal. lia.
    + rewrite !append_cons.
      match goal with
      | |- parse_number _ (String (digit_char d) ?t) = _ =>
          change (String (digit_char d) t) with (string_of_digits [d] +:+ t)
      end.
      rewrite append_assoc.
      eapply (parse_number_lexed negative)
        with (i := [d]) (f := d' :: tail) (x := (n - 1)%Z).
      * now apply lex_digits_string_of_digits.
      * now apply proper_integer_head.
      * now apply lex_fraction_digits.
      * now apply lex_exponent_text.
      * rewrite <- Hn. apply to_number_significant. cbn [app length]. f_equal. lia.
Qed.

Lemma parse_value_digit (fuel : nat) (c : ascii) (r : string) :
  is_digit c = true ->
  parse_value (S fuel) (String c r) = parse_number false (String c r).
Proof.
  destruct c as [[] [] [] [] [] [] [] []]; (discriminate || (intros _; reflexivity)).
Qed.

Lemma is_digit_digit_char (d : digits) : is_digit (digit_char d) = true.
Proof. destruct d; reflexivity. Qed.

Lemma digits_toString_start (s : list digits) (n : Z) :
  trimmed s = true -> starts_with is_digit (digits_toString s n) = true.
Proof.
  intros Ht. destruct (trimmed_facts s Ht) as (_ & _ & _ & d & tail & -> & _).
  unfold digits_toString.
  destruct ((Z.of_nat (length (d :: tail)) <=? n)%Z && (n <=? 21)%Z);
    [apply is_digit_digit_char |].
  destruct ((0 <? n)%Z && (n <=? 21)%Z) eqn:C2.
  - apply andb_prop in C2 as [Hpos _]. apply Z.ltb_lt in Hpos.
    destruct (Z.to_nat n) as [|m] eqn:E; [lia |]. apply is_digit_digit_char.
  - destruct ((-6 <? n)%Z && (n <=? 0)%Z); [reflexivity |].
    destruct tail; apply is_digit_digit_char.
Qed.

Lemma parse_value_number (number : JsNumber) (fuel : nat) (rest : string) :
  is_double number = true ->
  delimited rest = true ->
  parse_value (S fuel) (number_toString number +:+ rest) = Some (JNum number, rest).
Proof.
  intros Hdouble Hrest. destruct number as [|[] s n| |]; try discriminate.
  - destruct (delimited_facts rest Hrest) as (Hdig & Hfrac & Hexp).
    cbn [number_toString]. rewrite append_cons. cbn [String.append].
    rewrite parse_value_digit by reflexivity.
    change (String "0" rest) with (string_of_digits [d0] +:+ rest).
    eapply parse_number_lexed with (i := [d0]) (f := []) (x := 0%Z).
    + now apply lex_digits_string_of_digits.
    + reflexivity.
    + exact Hfrac.
    + exact Hexp.
    + reflexivity.
  - cbn [number_toString]. rewrite append_cons.
    change (parse_value (S fuel) (String "-" (digits_toString s n +:+ rest)))
      with (parse_number true (digits_toString s n +:+ rest)).
    now apply parse_number_toString.
  - cbn [number_toString].
    destruct (is_double_to_number _ _ _ Hdouble) as [Ht _].
    pose proof (digits_toString_start s n Ht) as Hstart.
    pose proof (parse_number_toString false s n rest Hdouble Hrest) as H.
    destruct (digits_toString s n) as [|c r]; [discriminate |].
    rewrite append_cons in *. rewrite parse_value_digit by exact Hstart. exact H.
Qed.

Lemma is_digit_value_start (text : string) :
  starts_with is_digit text = true -> starts_with value_start text = true.
Proof.
  destruct text as [|c r]; [discriminate |]. cbn [starts_with]. unfold value_start.
  now intros ->.
Qed.

Lemma serialize_start (indent : string) (v : JsValue) :
  json_data v = true ->
  exists text, SerializeJSONProperty indent v = Some text
               /\ starts_with value_start text = true.
Proof.
  destruct v as [| |b|number|s|elems|props]; cbn [json_data SerializeJSONProperty];
    try discriminate; intros H.
  - now eexists.
  - destruct b; now eexists.
  - destruct number as [|[] s n| |]; try discriminate;
      (eexists; split; [reflexivity |]); [reflexivity | reflexivity |].
    apply is_digit_value_start, digits_toString_start.
    now destruct (is_double_to_number _ _ _ H).
  - now eexists.
  - eexists. split; [reflexivity |]. unfold wrap_members.
    now destruct (map _ elems).
  - eexists. split; [reflexivity |]. unfold wrap_members.
    match goal with |- context [match ?l with [] => _ | _ :: _ => _ end] => now destruct l end.
Qed.

Lemma join_cons (sep x y : string) (l : list string) :
  join sep (x :: y :: l) = x +:+ sep +:+ join sep (y :: l).
Proof. reflexivity. Qed.

Lemma ordered_keys_before (before after : list string) (k : string) :
  ordered_keys (before ++ k :: after) = true ->
  Forall (fun k0 => key_precedes k0 k = true) before.
Proof.
  induction before as [|k0 before IH]; [constructor |].
  cbn [app ordered_keys]. intros H. apply andb_prop in H as [Hall Hord].
  constructor; [| now apply IH].
  rewrite forallb_app in Hall. apply andb_prop in Hall as [_ Hall].
  cbn [forallb] in Hall. now apply andb_prop in Hall as [Hk _].
Qed.

Lemma insert_index_last (i : N) (k : string) (x : JsValue)
    (acc : list (string * JsValue)) :
  array_index k = Some i ->
  Forall (fun k0 => key_precedes k0 k = true) (map fst acc) ->
  insert_index i k x acc = acc ++ [(k, x)].
Proof.
  intros Hi. induction acc as [|[k0 x0] acc IH]; [reflexivity |].
  cbn [map fst]. intros H. inversion H as [|? ? Hk Hrest]; subst.
  cbn [insert_index]. unfold key_precedes in Hk. rewrite Hi in Hk.
  apply andb_prop in Hk as [_ Hk].
  destruct (array_index k0) as [j|]; [| discriminate].
  rewrite Hk. cbn [app]. now rewrite IH.
Qed.

Lemma define_property_append (k : string) (x : JsValue)
    (acc : list (string * JsValue)) :
  Forall (fun k0 => key_precedes k0 k = true) (map fst acc) ->
  define_property k x acc = acc ++ [(k, x)].
Proof.
  intros H. unfold define_property.
  assert (Hfresh : has_key k acc = false).
  { unfold has_key. induction (map fst acc) as [|k0 keys IH]; [reflexivity |].
    inversion H as [|? ? Hk Hrest]; subst. cbn [existsb].
    unfold key_precedes in Hk. apply andb_prop in Hk as [Hk _].
    apply negb_true_iff in Hk. rewrite Hk. now apply IH. }
  rewrite Hfresh. destruct (array_index k) as [i|] eqn:Hi; [| reflexivity].
  now apply insert_index_last.
Qed.

Section Members.

Variable pv : string -> option (JsValue * string).
Variable txt : JsValue -> string.
Variables inner stepback rest : string.
Hypothesis inner_ws : ws_only inner = true.
Hypothesis stepback_ws : ws_only stepback = true.

Lemma parse_elements_join (elems : list JsValue) :
  Forall (fun e => starts_with value_start (txt e) = true
                   /\ forall rest', delimited rest' = true ->
                        pv (txt e +:+ rest') = Some (e, rest')) elems ->
  elems <> [] ->
  forall n acc, length elems <= n ->
  parse_elements pv n acc
    (join (String "," (String LF inner)) (map txt elems)
       +:+ String LF (stepback +:+ String "]" rest))
  = Some (acc ++ elems, rest).
Proof.
  induction 1 as [|e elems [Hstart He] Hall IH]; [congruence |]. intros _ n acc Hn.
  destruct n as [|n]; [cbn in Hn; lia |]. cbn [length] in Hn.
  destruct elems as [|e' elems].
  - cbn [map join parse_elements]. rewrite He by reflexivity.
    cbn [skip_ws is_ws Ascii.eqb Bool.eqb LF orb]. rewrite skip_ws_indent by exact stepback_ws.
    cbn. reflexivity.
  - cbn [map]. rewrite join_cons, !append_assoc. cbn [parse_elements].
    rewrite He by reflexivity. rewrite append_cons.
    cbn [skip_ws is_ws Ascii.eqb Bool.eqb LF orb]. cbn [String.append].
    cbn [skip_ws is_ws Ascii.eqb Bool.eqb LF orb andb].
    rewrite skip_ws_indent by exact inner_ws.
    change (txt e' :: map txt elems) with (map txt (e' :: elems)).
    rewrite skip_ws_value.
    + rewrite IH; [| congruence | cbn [length] in *; lia].
      now rewrite <- app_assoc.
    + inversion Hall as [|? ? [Hs' _] _]; subst.
      cbn [map]. destruct elems; cbn [map join].
      * destruct (txt e'); [discriminate | exact Hs'].
      * destruct (txt e'); [discriminate | exact Hs'].
Qed.

Lemma member_text_start (member : string * JsValue) (tail : string) :
  starts_with value_start (member_text txt member +:+ tail) = true.
Proof. reflexivity. Qed.

Lemma parse_member (n : nat) (acc : list (string * JsValue)) (k : string)
    (x : JsValue) (tail : string) :
  starts_with value_start (txt x) = true ->
  pv (txt x +:+ tail) = Some (x, tail) ->
  parse_members pv (S n) acc (member_text txt (k, x) +:+ tail)
  = match skip_ws tail with
    | EmptyString => None
    | String c s4 =>
        if Ascii.eqb c ","
        then parse_members pv n (define_property k x acc) (skip_ws s4)
        else if Ascii.eqb c "}" then Some (define_property k x acc, s4)
        else None
    end.
Proof.
  intros Hstart Hpv. unfold member_text. cbn [fst snd].
  rewrite !append_assoc. unfold QuoteJSONString.
  rewrite append_cons, append_assoc.
  change (String DQUOTE EmptyString +:+ ": " +:+ txt x +:+ tail)
    with (String DQUOTE (String ":" (String " " (txt x +:+ tail)))).
  cbn [parse_members]. rewrite Ascii.eqb_refl.
  rewrite parse_string_chars_quote_chars.
  cbn [skip_ws is_ws Ascii.eqb Bool.eqb orb].
  rewrite skip_ws_value.
  - now rewrite Hpv.
  - destruct (txt x); [discriminate | exact Hstart].
Qed.

Lemma parse_members_join (props : list (string * JsValue)) :
  Forall (fun member =>
            starts_with value_start (txt (snd member)) = true
            /\ forall rest', delimited rest' = true ->
                 pv (txt (snd member) +:+ rest') = Some (snd member, rest')) props ->
  props <> [] ->
  forall n acc, length props <= n ->
  ordered_keys (map fst (acc ++ props)) = true ->
  parse_members pv n acc
    (join (String "," (String LF inner)) (map (member_text txt) props)
       +:+ String LF (stepback +:+ String "}" rest))
  = Some (acc ++ props, rest).
Proof.
  induction 1 as [|[k x] props [Hstart Hx] Hall IH]; [congruence |].
  intros _ n acc Hn Hord.
  destruct n as [|n]; [cbn in Hn; lia |]. cbn [length] in Hn. cbn [snd] in *.
  assert (Hdef : define_property k x acc = acc ++ [(k, x)]).
  { apply define_property_append. rewrite map_app in Hord. cbn [map fst] in Hord.
    now apply ordered_keys_before in Hord. }
  destruct props as [|member props].
  - cbn [map join]. rewrite parse_member; [| exact Hstart | now apply Hx].
    cbn [skip_ws is_ws Ascii.eqb Bool.eqb LF orb].
    rewrite skip_ws_indent by exact stepback_ws.
    cbn. now rewrite Hdef.
  - cbn [map]. rewrite join_cons, !append_assoc.
    rewrite parse_member; [| exact Hstart | now apply Hx].
    rewrite append_cons.
    cbn [skip_ws is_ws Ascii.eqb Bool.eqb LF orb]. cbn [String.append].
    cbn [skip_ws is_ws Ascii.eqb Bool.eqb LF orb andb].
    rewrite skip_ws_indent by exact inner_ws.
    change (member_text txt member :: map (member_text txt) props)
      with (map (member_text txt) (member :: props)).
    rewrite skip_ws_value.
    + rewrite Hdef, IH.
      * now rewrite <- app_assoc.
      * congruence.
      * cbn [length] in *; lia.
      * now rewrite <- app_assoc.
    + cbn [map]. destruct props; cbn [map join]; [| rewrite !append_assoc];
        apply member_text_start.
Qed.

End Members.

Lemma JsValue_nested_ind (P : JsValue -> Prop) :
  P JUndefined -> P JNull -> (forall b, P (JBool b)) -> (forall n, P (JNum n)) ->
  (forall s, P (JStr s)) ->
  (forall elems, Forall P elems -> P (JArr elems)) ->
  (forall props, Forall (fun member => P (snd member)) props -> P (JObj props)) ->
  forall v, P v.
Proof.
  intros HU HN HB HNum HS HA HO. fix IH 1. intros [| |b|n|s|elems|props].
  - exact HU.
  - exact HN.
  - apply HB.
  - apply HNum.
  - apply HS.
  - apply HA. induction elems as [|e elems IHl]; constructor; [apply IH | exact IHl].
  - apply HO. induction props as [|[k x] props IHl]; constructor; [apply IH | exact IHl].
Qed.

Lemma json_size_pos (v : JsValue) : 1 <= json_size v.
Proof. destruct v; cbn [json_size]; lia. Qed.

Lemma list_sum_bounds {A} (size : A -> nat) (l : list A) :
  (forall a, 1 <= size a) ->
  length l <= list_sum (map size l)
  /\ forall a, In a l -> size a <= list_sum (map size l).
Proof.
  intros Hpos. induction l as [|x l [IHlen IHin]]; cbn [length map].
  - split; [cbn; lia | intros a []].
  - change (list_sum (size x :: map size l)) with (size x + list_sum (map size l)).
    pose proof (Hpos x). split; [lia |].
    intros a [<- | Hin]; [lia |]. specialize (IHin a Hin). lia.
Qed.

Lemma parse_value_array (fuel : nat) (ws text : string) :
  ws_only ws = true ->
  starts_with value_start text = true ->
  parse_value (S fuel) (String "[" (String LF (ws +:+ text)))
  = match parse_elements (parse_value fuel) fuel [] text with
    | Some (elems, rest) => Some (JArr elems, rest)
    | None => None
    end.
Proof.
  intros Hws Hstart. cbn [parse_value Ascii.eqb Bool.eqb DQUOTE].
  cbn [skip_ws is_ws Ascii.eqb Bool.eqb LF orb].
  rewrite skip_ws_indent, skip_ws_value by assumption.
  destruct text as [|c r]; [discriminate |].
  now destruct (value_start_facts c Hstart) as (_ & -> & _).
Qed.

Lemma parse_value_object (fuel : nat) (ws text : string) :
  ws_only ws = true ->
  starts_with value_start text = true ->
  parse_value (S fuel) (String "{" (String LF (ws +:+ text)))
  = match parse_members (parse_value fuel) fuel [] text with
    | Some (props, rest) => Some (JObj props, rest)
    | None => None
    end.
Proof.
  intros Hws Hstart. cbn [parse_value Ascii.eqb Bool.eqb DQUOTE].
  cbn [skip_ws is_ws Ascii.eqb Bool.eqb LF orb].
  rewrite skip_ws_indent, skip_ws_value by assumption.
  destruct text as [|c r]; [discriminate |].
  now destruct (value_start_facts c Hstart) as (_ & _ & ->).
Qed.

Lemma text_of_start (indent : string) (v : JsValue) :
  json_data v = true -> starts_with value_start (text_of indent v) = true.
Proof.
  intros H. unfold text_of.
  now destruct (serialize_start indent v H) as (text & -> & Hs).
Qed.

Lemma text_of_array (indent : string) (elems : list JsValue) :
  text_of indent (JArr elems)
  = wrap_members "[" "]" indent (map (text_of (indent +:+ gap)) elems).
Proof. reflexivity. Qed.

Lemma text_of_object (indent : string) (props : list (string * JsValue)) :
  forallb (fun '(_, x) => json_data x) props = true ->
  text_of indent (JObj props)
  = wrap_members "{" "}" indent
      (map (member_text (text_of (indent +:+ gap))) props).
Proof.
  intros H. unfold text_of at 1. cbn [SerializeJSONProperty]. f_equal.
  induction props as [|[k x] props IH]; [reflexivity |].
  cbn [forallb] in H. apply andb_prop in H as [Hx Hrest].
  cbn [map]. rewrite <- IH by exact Hrest.
  unfold member_text, text_of. cbn [fst snd].
  now destruct (serialize_start (indent +:+ gap) x Hx) as (text & -> & _).
Qed.

Lemma wrap_members_append (opening closing : ascii) (stepback rest : string)
    (first : string) (others : list string) :
  wrap_members opening closing stepback (first :: others) +:+ rest
  = String opening (String LF ((stepback +:+ gap)
      +:+ (join (String "," (String LF (stepback +:+ gap))) (first :: others)
             +:+ String LF (stepback +:+ String closing rest)))).
Proof.
  unfold wrap_members. rewrite !append_assoc. cbn [String.append].
  now rewrite !append_assoc.
Qed.

Lemma join_start (sep : string) (p : ascii -> bool) (first tail : string)
    (others : list string) :
  starts_with p first = true ->
  starts_with p (join sep (first :: others) +:+ tail) = true.
Proof.
  intros H. destruct first as [|c first]; [discriminate |].
  destruct others; cbn [join]; [| rewrite append_assoc]; exact H.
Qed.

(** Reading the text of a value gives the value back and stops where
    the text ends. *)
Lemma parse_text_of (v : JsValue) :
  json_data v = true ->
  forall indent fuel rest,
    ws_only indent = true -> json_size v <= fuel -> delimited rest = true ->
    parse_value fuel (text_of indent v +:+ rest) = Some (v, rest).
Proof.
  induction v as [| |b|n|s|elems IH|props IH] using JsValue_nested_ind;
    intros Hdata indent fuel rest Hws Hfuel Hrest;
    (destruct fuel as [|fuel]; [cbn [json_size] in Hfuel; lia |]).
  - discriminate.
  - reflexivity.
  - destruct b; reflexivity.
  - cbn [json_data] in Hdata. unfold text_of.
    destruct n as [|negative s n| |]; try discriminate;
      now apply parse_value_number.
  - unfold text_of. cbn [SerializeJSONProperty]. unfold QuoteJSONString.
    rewrite append_cons, append_assoc. cbn [String.append].
    cbn [parse_value Ascii.eqb Bool.eqb DQUOTE].
    now rewrite parse_string_chars_quote_chars.
  - rewrite text_of_array. cbn [json_data] in Hdata. cbn [json_size] in Hfuel.
    destruct elems as [|e elems]; [reflexivity |].
    cbn [map]. rewrite wrap_members_append.
    assert (Hinner : ws_only (indent +:+ gap) = true) by now apply ws_only_append.
    rewrite parse_value_array;
      [| exact Hinner
       | apply join_start, text_of_start;
         cbn [forallb] in Hdata; now apply andb_prop in Hdata as [-> _] ].
    change (text_of (indent +:+ gap) e :: map (text_of (indent +:+ gap)) elems)
      with (map (text_of (indent +:+ gap)) (e :: elems)).
    destruct (list_sum_bounds json_size (e :: elems) json_size_pos) as [Hlen Hsize].
    rewrite (parse_elements_join (parse_value fuel) (text_of (indent +:+ gap))
               (indent +:+ gap) indent rest Hinner Hws (e :: elems));
      [reflexivity | | congruence | lia].
    rewrite forallb_forall in Hdata. rewrite Forall_forall in IH |- *.
    intros x Hx. apply list_elem_of_In in Hx. split.
    + apply text_of_start. now apply Hdata.
    + intros rest' Hrest'. apply IH.
      * now apply list_elem_of_In.
      * now apply Hdata.
      * exact Hinner.
      * specialize (Hsize x Hx). lia.
      * exact Hrest'.
  - cbn [json_data] in Hdata. apply andb_prop in Hdata as [Hord Hdata].
    rewrite text_of_object by exact Hdata. cbn [json_size] in Hfuel.
    destruct props as [|[k x] props]; [reflexivity |].
    cbn [map]. rewrite wrap_members_append.
    assert (Hinner : ws_only (indent +:+ gap) = true) by now apply ws_only_append.
    rewrite parse_value_object;
      [| exact Hinner | apply join_start; reflexivity ].
    change (member_text (text_of (indent +:+ gap)) (k, x)
              :: map (member_text (text_of (indent +:+ gap))) props)
      with (map (member_text (text_of (indent +:+ gap))) ((k, x) :: props)).
    destruct (list_sum_bounds (fun '(_, x) => json_size x) ((k, x) :: props)
                ltac:(intros [? ?]; apply json_size_pos)) as [Hlen Hsize].
    rewrite (parse_members_join (parse_value fuel) (text_of (indent +:+ gap))
               (indent +:+ gap) indent rest Hinner Hws ((k, x) :: props));
      [reflexivity | | congruence | lia | exact Hord].
    rewrite forallb_forall in Hdata. rewrite Forall_forall in IH |- *.
    intros [k' x'] Hx. apply list_elem_of_In in Hx. cbn [snd]. split.
    + apply text_of_start. now apply (Hdata (k', x')).
    + intros rest' Hrest'. apply (IH (k', x')).
      * now apply list_elem_of_In.
      * now apply (Hdata (k', x')).
      * exact Hinner.
      * specialize (Hsize (k', x') Hx). cbv beta iota in Hsize. cbn [snd]. lia.
      * exact Hrest'.
Qed.

Lemma join_length (sep : string) (l : list string) :
  list_sum (map String.length l) <= String.length (join sep l).
Proof.
  induction l as [|x l IH]; [cbn; lia |].
  change (list_sum (map String.length (x :: l)))
    with (String.length x + list_sum (map String.length l)).
  destruct l as [|y l]; [cbn; lia |].
  rewrite join_cons, !length_append. lia.
Qed.

Lemma wrap_members_length (opening closing : ascii) (stepback : string)
    (partial : list string) :
  S (list_sum (map String.length partial))
  <= String.length (wrap_members opening closing stepback partial).
Proof.
  unfold wrap_members. destruct partial as [|x partial]; [cbn; lia |].
  rewrite !length_append. cbn [String.length].
  pose proof (join_length (String "," (String LF (stepback +:+ gap))) (x :: partial)).
  lia.
Qed.

Lemma list_sum_le {A} (f g : A -> nat) (l : list A) :
  Forall (fun a => f a <= g a) l -> list_sum (map f l) <= list_sum (map g l).
Proof.
  induction 1 as [|a l Ha Hl IH]; [cbn; lia |].
  change (list_sum (map f (a :: l))) with (f a + list_sum (map f l)).
  change (list_sum (map g (a :: l))) with (g a + list_sum (map g l)).
  lia.
Qed.

(** The text of a value is at least as long as the value has nodes. *)
Lemma json_size_le_length (v : JsValue) :
  json_data v = true ->
  forall indent, json_size v <= String.length (text_of indent v).
Proof.
  induction v as [| |b|n|s|elems IH|props IH] using JsValue_nested_ind;
    intros Hdata indent.
  - discriminate.
  - cbn; lia.
  - destruct b; cbn; lia.
  - pose proof (text_of_start indent (JNum n) Hdata) as H.
    destruct (text_of indent (JNum n)); [discriminate | cbn; lia].
  - cbn; lia.
  - rewrite text_of_array. cbn [json_size json_data] in *.
    etransitivity; [| apply wrap_members_length]. apply le_n_S.
    rewrite map_map. apply list_sum_le.
    rewrite forallb_forall in Hdata. rewrite Forall_forall in IH |- *.
    intros e He. apply IH; [exact He |]. apply Hdata. now apply list_elem_of_In.
  - cbn [json_data] in Hdata. apply andb_prop in Hdata as [_ Hdata].
    rewrite text_of_object by exact Hdata. cbn [json_size].
    etransitivity; [| apply wrap_members_length]. apply le_n_S.
    rewrite map_map. apply list_sum_le.
    rewrite forallb_forall in Hdata. rewrite Forall_forall in IH |- *.
    intros [k x] Hx. unfold member_text. cbn [fst snd]. rewrite !length_append.
    specialize (IH (k, x) Hx). cbn [snd] in IH.
    specialize (IH (Hdata (k, x) ltac:(now apply list_elem_of_In)) (indent +:+ gap)).
    lia.
Qed.

(** [JSON.parse] reads back what [JSON.stringify(_, null, 2)] writes
    for JSON data. *)
Lemma JSON_parse_stringify (v : JsValue) :
  json_data v = true ->
  exists text, JSON_stringify v = JStr text /\ JSON_parse text = Some v.
Proof.
  intros Hdata. exists (text_of EmptyString v). split.
  - unfold JSON_stringify, text_of.
    now destruct (serialize_start EmptyString v Hdata) as (text & -> & _).
  - unfold JSON_parse. rewrite skip_ws_value by now apply text_of_start.
    pose proof (parse_text_of v Hdata EmptyString
                  (S (String.length (text_of EmptyString v))) EmptyString
                  eq_refl) as H.
    rewrite append_nil_r in H. rewrite H; [reflexivity | | reflexivity].
    pose proof (json_size_le_length v Hdata EmptyString). lia.
Qed.

(** ** The normalization step *)

Lemma dispatch_normalized (name : string) (toolNameMap : gmap string Tool.t)
    (args : JsValue) (tool : Tool.t) (response : JsValue) :
  toolNameMap !! name = Some tool ->
  Tool.execute tool args = Normal response ->
  json_data response = true ->
  normalized response (snd (dispatch name toolNameMap args)).
Proof.
  intros Hreg Hexec Hdata. rewrite (dispatch_outcome _ _ _ _ Hreg), Hexec.
  destruct (JSON_parse_stringify response Hdata) as (text & Htext & Hparse).
  destruct response as [| |b|n|s|elems|props]; cbn [normalized typeof toString].
  - discriminate.
  - exists text. now rewrite Htext.
  - exists text. split; [| now split].
    destruct b; injection Htext as <-; reflexivity.
  - exists text. split; [| now split].
    destruct n as [|negative s n| |]; try discriminate;
      injection Htext as <-; reflexivity.
  - reflexivity.
  - exists text. now rewrite Htext.
  - exists text. now rewrite Htext.
Qed.

(** C6, as amended.  When the registered tool's [execute] completes
    with JSON data (no [undefined], no [NaN] or infinity, at any depth),
    [run] answers a string as it is, and any other value as the text
    [JSON.stringify(value, null, 2)] gives, which [JSON.parse] reads
    back to the value.  The swap driver does so with an arguments object
    once its test on the arguments has passed, and answers the fixed
    text of that test otherwise. *)
Theorem run_normalizes_json_data (name : string)
    (toolNameMap : gmap string Tool.t) (args : JsValue) (tool : Tool.t)
    (response : JsValue) :
  toolNameMap !! name = Some tool ->
  Tool.execute tool args = Normal response ->
  json_data response = true ->
  normalized response (snd (Dexscreener.run name toolNameMap args))
  /\ forall toolType props,
       args = JObj props ->
       if swap_guard toolType name props
       then Swap.run toolType name toolNameMap args
            = ([], Normal (JStr "Error: Missing userPublicKey for swap operation."))
       else executed (fst (Swap.run toolType name toolNameMap args)) = [(tool, args)]
            /\ normalized response (snd (Swap.run toolType name toolNameMap args)).
Proof.
  intros Hreg Hexec Hdata.
  pose proof (dispatch_normalized _ _ _ _ _ Hreg Hexec Hdata) as D.
  split; [exact D |].
  intros toolType props ->. rewrite swap_run_object.
  destruct (swap_guard toolType name props); [reflexivity |].
  split; [now apply dispatch_registered | exact D].
Qed.

Lemma run_normalizes_json_data_witness :
  (exists text,
      snd (Dexscreener.run "dex_search_pairs" (<["dex_search_pairs" := price_tool]> ∅)
             (JObj []))
      = Normal (JStr text)
      /\ JSON_stringify (JObj [("price"%string, JNum (NDec false [d1; d2; d3] 1));
                               ("pairs"%string, JArr [JStr "SOL/USDC"; JNull])])
         = JStr text
      /\ JSON_parse text
         = Some (JObj [("price"%string, JNum (NDec false [d1; d2; d3] 1));
                       ("pairs"%string, JArr [JStr "SOL/USDC"; JNull])]))
  /\ number_toString (NDec false [d1; d2; d3] 1) = "1.23"
  /\ exists text,
      snd (Swap.run Swap.dexscreener "dex_search_pairs"
             (<["dex_search_pairs" := price_tool]> ∅) (JObj []))
      = Normal (JStr text)
      /\ JSON_parse text
         = Some (JObj [("price"%string, JNum (NDec false [d1; d2; d3] 1));
                       ("pairs"%string, JArr [JStr "SOL/USDC"; JNull])]).
Proof.
  assert (Hreg : (<["dex_search_pairs" := price_tool]> ∅ : gmap string Tool.t)
                   !! "dex_search_pairs" = Some price_tool) by reflexivity.
  assert (Hdata : json_data
                    (JObj [("price"%string, JNum (NDec false [d1; d2; d3] 1));
                           ("pairs"%string, JArr [JStr "SOL/USDC"; JNull])]) = true)
    by (vm_compute; reflexivity).
  destruct (run_normalizes_json_data "dex_search_pairs"
              (<["dex_search_pairs" := price_tool]> ∅) (JObj []) price_tool
              (JObj [("price"%string, JNum (NDec false [d1; d2; d3] 1));
                     ("pairs"%string, JArr [JStr "SOL/USDC"; JNull])])
              Hreg eq_refl Hdata) as [Hrun Hswap].
  split; [exact Hrun |]. split; [reflexivity |].
  destruct (Hswap Swap.dexscreener [] eq_refl) as [_ (text & Htext & _ & Hparse)].
  exists text. split; [exact Htext | exact Hparse].
Defined.

(** C6 as the claim states it fails on a structured result that is not
    JSON data: a [NaN] is written as [null] and a member whose value is
    [undefined] is left out, so the text reads back to another value. *)
Lemma lossy_result_counterexample :
  exists text,
    snd (Dexscreener.run "dex_search_pairs" (<["dex_search_pairs" := lossy_tool]> ∅)
           (JObj []))
    = Normal (JStr text)
    /\ JSON_stringify (JObj [("price"%string, JNum NNaN); ("pairs"%string, JUndefined)])
       = JStr text
    /\ JSON_parse text = Some (JObj [("price"%string, JNull)])
    /\ JSON_parse text
       <> Some (JObj [("price"%string, JNum NNaN); ("pairs"%string, JUndefined)]).
Proof.
  eexists. split; [reflexivity |]. split; [reflexivity |].
  split; [reflexivity | discriminate].
Qed.

(** ** Further properties of the dispatcher *)

(** X1. [run] of the DexScreener driver never throws: whatever the
    registry, the name and the arguments, it completes normally or it
    stays pending, and it stays pending exactly when the registry holds
    a tool for the name whose [execute] never settles. *)
Theorem dexscreener_run_never_throws (name : string)
    (toolNameMap : gmap string Tool.t) (args : JsValue) :
  (forall error, snd (Dexscreener.run name toolNameMap args) <> Throw error)
  /\ (snd (Dexscreener.run name toolNameMap args) = Pending
      <-> exists tool, toolNameMap !! name = Some tool
                       /\ Tool.execute tool args = Pending).
Proof.
  unfold Dexscreener.run.
  destruct (toolNameMap !! name) as [tool|] eqn:Hreg.
  - rewrite (dispatch_outcome _ _ _ _ Hreg).
    destruct (Tool.execute tool args) as [response | error |] eqn:Hexec.
    + assert (Hnormal :
                exists value,
                  (if String.eqb (typeof response) "object"
                   then Normal (JSON_stringify response)
                   else match toString response with
                        | inr s => Normal (JStr s)
                        | inl error =>
                            Normal (JStr ("An error occurred while running " +:+ name
                                            +:+ ": " +:+ error_text error))
                        end) = Normal value).
      { destruct (String.eqb (typeof response) "object"); [eauto |].
        destruct (toString response); eauto. }
      destruct Hnormal as [value ->].
      split; [discriminate |]. split; [discriminate |].
      intros (tool' & [= <-] & Hpending). congruence.
    + split; [discriminate |]. split; [discriminate |].
      intros (tool' & [= <-] & Hpending). congruence.
    + split; [discriminate |]. split; [now exists tool | reflexivity].
  - rewrite (dispatch_unregistered _ _ _ Hreg).
    split; [discriminate |]. split; [discriminate |].
    intros (tool & [=] & _).
Qed.

Lemma dispatch_never_throws (name : string) (toolNameMap : gmap string Tool.t)
    (args : JsValue) (e : Thrown) :
  snd (dispatch name toolNameMap args) <> Throw e.
Proof.
  destruct (toolNameMap !! name) as [tool|] eqn:Hreg.
  - rewrite (dispatch_outcome _ _ _ _ Hreg).
    destruct (Tool.execute tool args) as [response | error |]; try discriminate.
    destruct (String.eqb (typeof response) "object"); [discriminate |].
    destruct (toString response); discriminate.
  - rewrite (dispatch_unregistered _ _ _ Hreg). discriminate.
Qed.

Lemma swap_run_cases (toolType : Swap.ToolType) (name : string)
    (toolNameMap : gmap string Tool.t) (args : JsValue) :
  Swap.run toolType name toolNameMap args
  = if Swap.is_jupiter toolType && String.eqb name "swap"
    then match in_operator "userPublicKey" args with
         | inl e => ([], Throw e)
         | inr true => dispatch name toolNameMap args
         | inr false =>
             ([], Normal (JStr "Error: Missing userPublicKey for swap operation."))
         end
    else dispatch name toolNameMap args.
Proof.
  unfold Swap.run.
  destruct (Swap.is_jupiter toolType && String.eqb name "swap").
  - unfold lift. destruct (in_operator "userPublicKey" args) as [e | []];
      unfold_monad; cbn [negb]; try reflexivity.
    now destruct (dispatch name toolNameMap args).
  - unfold_monad. now destruct (dispatch name toolNameMap args).
Qed.

(** X2. [run] of the swap driver throws in one case only: the
    capability is the Jupiter one named [swap] and the arguments are no
    object, so that the test [in] before the [try] throws.  The call
    then executes nothing and logs nothing. *)
Theorem swap_run_throws_iff (toolType : Swap.ToolType) (name : string)
    (toolNameMap : gmap string Tool.t) (args : JsValue) (e : Thrown) :
  (snd (Swap.run toolType name toolNameMap args) = Throw e
   <-> Swap.is_jupiter toolType && String.eqb name "swap" = true
       /\ in_operator "userPublicKey" args = inl e)
  /\ (snd (Swap.run toolType name toolNameMap args) = Throw e ->
      Swap.run toolType name toolNameMap args = ([], Throw e)).
Proof.
  rewrite swap_run_cases.
  destruct (Swap.is_jupiter toolType && String.eqb name "swap").
  - destruct (in_operator "userPublicKey" args) as [e' | []]; cbn [snd].
    + split; [| intros [= ->]; reflexivity].
      split; [intros [= ->]; now split | intros [_ [= ->]]; reflexivity].
    + split; [| intros H; now apply dispatch_never_throws in H].
      split; [intros H; now apply dispatch_never_throws in H | intros [_ [=]]].
    + split; [| discriminate].
      split; [discriminate | intros [_ [=]]].
  - split; [| intros H; now apply dispatch_never_throws in H].
    split; [intros H; now apply dispatch_never_throws in H | intros [[=] _]].
Qed.

(** X3. The test on the arguments concerns the Jupiter capability named
    [swap] alone, and only the presence of the key: any other capability
    dispatches whatever the arguments are, and the swap capability
    dispatches as soon as the arguments object has a [userPublicKey]
    property, whatever its value (even [undefined]). *)
Theorem swap_guard_scope (toolType : Swap.ToolType) (name : string)
    (toolNameMap : gmap string Tool.t) :
  (Swap.is_jupiter toolType && String.eqb name "swap" = false ->
   forall args, Swap.run toolType name toolNameMap args = dispatch name toolNameMap args)
  /\ (forall before value after,
        Swap.run toolType name toolNameMap
          (JObj (before ++ ("userPublicKey"%string, value) :: after))
        = dispatch name toolNameMap
            (JObj (before ++ ("userPublicKey"%string, value) :: after))).
Proof.
  split.
  - intros H args. now rewrite swap_run_cases, H.
  - intros before value after. rewrite swap_run_cases.
    destruct (Swap.is_jupiter toolType && String.eqb name "swap"); [| reflexivity].
    cbn [in_operator]. rewrite map_app, existsb_app. cbn [map fst existsb].
    rewrite String.eqb_refl, orb_true_l, orb_true_r. reflexivity.
Qed.

(** X4. The dispatcher calls [console.error] at most once, and when
    it does it answers the error string of its [catch], with the
    capability name in the label and the error that the string reports.
    It does so for a name the registry does not hold, for an [execute]
    that throws, and for an [execute] that completes with [undefined].
    It logs no error for an [execute] that stays pending or completes
    with [null], a boolean, a number or a string; after an array or an
    object, no error logged means that [run] answers what
    [JSON.stringify] returned. *)
Theorem dispatch_logs_every_failure (name : string)
    (toolNameMap : gmap string Tool.t) (args : JsValue) :
  let result := Dexscreener.run name toolNameMap args in
  let label := "Error in capability " +:+ name +:+ ":" in
  let failure error :=
    console_errors (fst result) = [(label, error)]
    /\ snd result = Normal (JStr ("An error occurred while running " +:+ name +:+ ": "
                                    +:+ error_text error)) in
  (console_errors (fst result) = [] \/ exists error, failure error)
  /\ match toolNameMap !! name with
     | None => failure (JsError ("Original tool not found for " +:+ name))
     | Some tool =>
         match Tool.execute tool args with
         | Throw error => failure error
         | Pending => console_errors (fst result) = [] /\ snd result = Pending
         | Normal JUndefined =>
             failure (JsError (cannot_read_message "undefined" "toString"))
         | Normal JNull =>
             console_errors (fst result) = [] /\ snd result = Normal (JStr "null")
         | Normal (JBool b) =>
             console_errors (fst result) = []
             /\ snd result = Normal (JStr (if b then "true" else "false"))
         | Normal (JNum number) =>
             console_errors (fst result) = []
             /\ snd result = Normal (JStr (number_toString number))
         | Normal (JStr s) =>
             console_errors (fst result) = [] /\ snd result = Normal (JStr s)
         | Normal ((JArr _ | JObj _) as response) =>
             console_errors (fst result) = [] ->
             snd result = Normal (JSON_stringify response)
         end
     end.
Proof.
  intros result label failure. subst result label failure.
  unfold Dexscreener.run.
  destruct (toolNameMap !! name) as [tool|] eqn:Hreg.
  - unfold dispatch. rewrite Hreg.
    unfold try_catch, call_execute, normalize, bind, emit, lift, throw, ret.
    destruct (Tool.execute tool args) as [response | e |]; cbn [app fst snd];
      [| split; [right; exists e |]; split; reflexivity
       | split; [left |]; [| split]; reflexivity].
    destruct response as [| |[]|number|s|elems|props];
      cbn [typeof toString app fst snd console_errors];
      try (split; [left |]; [| split]; reflexivity);
      try (split; [left; reflexivity | intros _; reflexivity]).
    split; [right; eexists |]; split; reflexivity.
  - rewrite (dispatch_unregistered _ _ _ Hreg).
    split; [right; eexists |]; split; reflexivity.
Qed.

(** ** Setup of the DexScreener driver *)

Lemma register_tools_snoc (tools : list Tool.t) (tool : Tool.t)
    (toolNameMap : gmap string Tool.t) :
  Dexscreener.register_tools (tools ++ [tool]) toolNameMap
  = <[formatToolName (Tool.name tool) := tool]>
      (Dexscreener.register_tools tools toolNameMap).
Proof. unfold Dexscreener.register_tools. now rewrite fold_left_app. Qed.

Lemma register_tools_resolves (tools : list Tool.t)
    (toolNameMap : gmap string Tool.t) (name : string) :
  (exists tool, In tool tools /\ formatToolName (Tool.name tool) = name) ->
  exists tool, In tool tools /\ formatToolName (Tool.name tool) = name
               /\ Dexscreener.register_tools tools toolNameMap !! name = Some tool.
Proof.
  induction tools as [|last tools IH] using rev_ind; intros (tool & Hin & Hname).
  - destruct Hin.
  - rewrite register_tools_snoc.
    destruct (String.eqb_spec (formatToolName (Tool.name last)) name) as [Heq | Hne].
    + exists last. split; [apply in_or_app; right; now left |].
      split; [exact Heq |]. rewrite <- Heq. apply lookup_insert_eq.
    + apply in_app_or in Hin as [Hin | [<- | []]]; [| contradiction].
      destruct IH as (found & Hfound & Hfname & Hlookup); [now exists tool |].
      exists found. split; [apply in_or_app; now left |]. split; [exact Hfname |].
      now rewrite lookup_insert_ne.
Qed.

Lemma register_tools_never_removes (tools : list Tool.t)
    (toolNameMap : gmap string Tool.t) (name : string) :
  is_Some (toolNameMap !! name) ->
  is_Some (Dexscreener.register_tools tools toolNameMap !! name).
Proof.
  intros H. induction tools as [|last tools IH] using rev_ind; [exact H |].
  rewrite register_tools_snoc.
  destruct (String.eqb_spec (formatToolName (Tool.name last)) name) as [<- | Hne].
  - rewrite lookup_insert_eq. eauto.
  - now rewrite lookup_insert_ne.
Qed.

(** X5. After the setup of the DexScreener driver the capabilities are,
    in order, those of the tools whose name starts with [dexscreener],
    and the registry resolves the name of each of them to such a tool
    with that formatted name: no capability of the driver can answer
    that its tool was not found. *)
Theorem dexscreener_setup_resolves_every_capability (allTools : list Tool.t)
    (toolNameMap : gmap string Tool.t) :
  let kept :=
    List.filter (fun tool => String.prefix "dexscreener" (Tool.name tool)) allTools in
  let capabilities := fst (Dexscreener.setup allTools toolNameMap) in
  let registry := snd (Dexscreener.setup allTools toolNameMap) in
  map Capability.name capabilities
  = map (fun tool => formatToolName (Tool.name tool)) kept
  /\ forall capability, In capability capabilities ->
       exists tool,
         registry !! Capability.name capability = Some tool
         /\ In tool allTools
         /\ String.prefix "dexscreener" (Tool.name tool) = true
         /\ formatToolName (Tool.name tool) = Capability.name capability.
Proof.
  intros kept capabilities registry. subst capabilities registry.
  unfold Dexscreener.setup. cbn [fst snd]. fold kept. split.
  - rewrite map_map. reflexivity.
  - intros capability Hin. apply in_map_iff in Hin as (tool & <- & Hin).
    cbn [Dexscreener.toCapability Capability.name].
    destruct (register_tools_resolves kept toolNameMap
                (formatToolName (Tool.name tool))) as (found & Hfound & Hname & Hlookup);
      [now exists tool |].
    exists found. split; [exact Hlookup |].
    apply filter_In in Hfound as [Hall Hprefix]. auto.
Qed.

(** X6. The setup of the DexScreener driver only adds to the registry:
    a name registered before is registered after, and a name that is
    the formatted name of no kept tool resolves as before. *)
Theorem dexscreener_setup_only_adds (allTools : list Tool.t)
    (toolNameMap : gmap string Tool.t) (name : string) :
  let registry := snd (Dexscreener.setup allTools toolNameMap) in
  (is_Some (toolNameMap !! name) -> is_Some (registry !! name))
  /\ ((forall tool, In tool allTools ->
         String.prefix "dexscreener" (Tool.name tool) = true ->
         formatToolName (Tool.name tool) <> name) ->
      registry !! name = toolNameMap !! name).
Proof.
  intros registry. subst registry. unfold Dexscreener.setup. cbn [snd]. split.
  - apply register_tools_never_removes.
  - intros H. apply register_tools_other.
    intros tool Hin. apply filter_In in Hin as [Hall Hprefix]. now apply H.
Qed.

(** X7. When the formatted names of the kept tools are pairwise
    distinct, the registry resolves the name of every kept tool to that
    very tool, and the capability built from it executes it, once, on
    the arguments of the call. *)
Theorem dexscreener_distinct_names_resolve_to_own_tool (allTools : list Tool.t)
    (toolNameMap : gmap string Tool.t) (tool : Tool.t) (args : JsValue) :
  let kept :=
    List.filter (fun tool => String.prefix "dexscreener" (Tool.name tool)) allTools in
  let registry := snd (Dexscreener.setup allTools toolNameMap) in
  NoDup (map (fun tool => formatToolName (Tool.name tool)) kept) ->
  In tool kept ->
  registry !! formatToolName (Tool.name tool) = Some tool
  /\ executed (fst (Capability.run (Dexscreener.toCapability tool) registry args))
     = [(tool, args)].
Proof.
  intros kept registry Hnodup Hin. subst registry.
  unfold Dexscreener.setup. cbn [snd]. fold kept.
  apply in_split in Hin as (before & after & Hsplit).
  assert (Hreg : Dexscreener.register_tools kept toolNameMap
                   !! formatToolName (Tool.name tool) = Some tool).
  { rewrite Hsplit. apply register_tools_last. intros later Hlater Heq.
    rewrite Hsplit, map_app in Hnodup. cbn [map] in Hnodup.
    apply NoDup_app in Hnodup as (_ & _ & Hnodup).
    apply NoDup_cons in Hnodup as [Hnotin _]. apply Hnotin.
    apply list_elem_of_In. rewrite <- Heq.
    apply (in_map (fun tool => formatToolName (Tool.name tool))). exact Hlater. }
  split; [exact Hreg |].
  cbn [Dexscreener.toCapability Capability.run]. unfold Dexscreener.run.
  now apply dispatch_registered.
Qed.

(** ** Names *)

Lemma formatToolName_no_dot (n : string) : has_dot (formatToolName n) = false.
Proof.
  induction n as [|c n IH]; [reflexivity |]. cbn [formatToolName has_dot].
  rewrite IH, orb_false_r. destruct (Ascii.eqb c ".") eqn:E; [reflexivity | exact E].
Qed.

Lemma formatToolName_fixed (n : string) :
  formatToolName n = n <-> has_dot n = false.
Proof.
  induction n as [|c n IH]; [easy |]. cbn [formatToolName has_dot]. split.
  - intros [= Hc Hn]. apply IH in Hn. rewrite Hn, orb_false_r.
    destruct (Ascii.eqb c ".") eqn:E; [| reflexivity].
    apply Ascii.eqb_eq in E. subst c. discriminate Hc.
  - intros H. apply orb_false_iff in H as [Hc Hn]. rewrite Hc.
    f_equal. now apply IH.
Qed.

(** X8. Formatting is idempotent, it distributes over concatenation,
    and it leaves a name as it is exactly when the name has no dot. *)
Theorem formatToolName_idempotent (n a b : string) :
  formatToolName (formatToolName n) = formatToolName n
  /\ formatToolName (a +:+ b) = formatToolName a +:+ formatToolName b
  /\ (formatToolName n = n <-> has_dot n = false).
Proof.
  split; [| split].
  - apply formatToolName_fixed, formatToolName_no_dot.
  - induction a as [|c a IH]; [reflexivity |].
    rewrite append_cons. cbn [formatToolName]. now rewrite IH, append_cons.
  - apply formatToolName_fixed.
Qed.

Lemma split_dot_nonempty (s : string) : split_dot s <> [].
Proof.
  destruct s as [|c s]; cbn [split_dot]; [discriminate |].
  destruct (Ascii.eqb c "."); [discriminate |]. now destruct (split_dot s).
Qed.

Lemma split_dot_no_dot (s : string) : has_dot s = false -> split_dot s = [s].
Proof.
  induction s as [|c s IH]; [reflexivity |]. cbn [has_dot split_dot]. intros H.
  apply orb_false_iff in H as [-> Hs]. now rewrite IH.
Qed.

Lemma split_dot_append (a b : string) :
  split_dot (a +:+ String "." b) = split_dot a ++ split_dot b.
Proof.
  induction a as [|c a IH]; [reflexivity |].
  rewrite append_cons. cbn [split_dot]. rewrite IH.
  destruct (Ascii.eqb c "."); [reflexivity |].
  pose proof (split_dot_nonempty a) as Hne.
  now destruct (split_dot a).
Qed.

Lemma last_app_nonempty {A} (l k : list A) (d : A) :
  k <> [] -> List.last (l ++ k) d = List.last k d.
Proof.
  intros Hk. induction l as [|x l IH]; [reflexivity |].
  cbn [app]. destruct (l ++ k) eqn:E; [| exact IH].
  apply app_eq_nil in E as [_ ->]. now destruct Hk.
Qed.

(** X9. [functionName] keeps what follows the last dot of a tool name,
    dropping every name space before it; a name without a dot, and a
    name that ends with a dot, are kept whole. *)
Theorem functionName_is_last_segment (namespace segment : string) :
  has_dot segment = false ->
  functionName segment = segment
  /\ functionName (namespace +:+ ".") = namespace +:+ "."
  /\ (segment <> EmptyString ->
      functionName (namespace +:+ String "." segment) = segment).
Proof.
  intros Hseg. unfold functionName. split; [| split].
  - rewrite split_dot_no_dot by exact Hseg. cbn [List.last].
    now destruct (String.eqb_spec segment EmptyString) as [-> |].
  - rewrite split_dot_append, last_app_nonempty by apply split_dot_nonempty.
    reflexivity.
  - intros Hne. rewrite split_dot_append, last_app_nonempty by apply split_dot_nonempty.
    rewrite split_dot_no_dot by exact Hseg. cbn [List.last].
    now destruct (String.eqb_spec segment EmptyString).
Qed.

Lemma last_split_dot_no_dot (s : string) :
  has_dot (List.last (split_dot s) EmptyString) = false.
Proof.
  induction s as [|c s IH]; [reflexivity |]. cbn [split_dot].
  pose proof (split_dot_nonempty s) as Hne.
  destruct (Ascii.eqb c ".") eqn:E.
  - destruct (split_dot s) as [|x l]; [now destruct Hne | exact IH].
  - destruct (split_dot s) as [|x l]; [now destruct Hne |].
    destruct l as [|y l]; [| exact IH].
    cbn [List.last] in *. cbn [has_dot]. now rewrite E, IH.
Qed.

Lemma last_split_dot_empty (s : string) :
  List.last (split_dot s) EmptyString = EmptyString ->
  s = EmptyString \/ exists before, s = before +:+ ".".
Proof.
  induction s as [|c s IH]; intros H; [now left | right]. cbn [split_dot] in H.
  pose proof (split_dot_nonempty s) as Hne.
  destruct (Ascii.eqb_spec c ".") as [-> | Hc].
  - destruct (split_dot s) as [|x l] eqn:E; [now destruct Hne |].
    destruct IH as [-> | [before ->]]; [exact H | now exists EmptyString |].
    now exists (String "." before).
  - destruct (split_dot s) as [|x l] eqn:E; [now destruct Hne |].
    destruct l as [|y l]; [discriminate H |].
    destruct IH as [-> | [before ->]]; [exact H | discriminate E |].
    now exists (String c before).
Qed.

(** X10. The capability names of the swap driver never hold a dot.
    Those of the Allora driver, which does not format them, hold one
    only when the tool name ends with a dot, and the capability then
    bears the tool name as it is. *)
Theorem capability_names_and_dots (tool : Tool.t) :
  (forall toolType name,
      Swap.formattedName tool toolType = inr name -> has_dot name = false)
  /\ (forall name,
        Allora.capabilityName tool = Some name -> has_dot name = true ->
        name = Tool.name tool /\ exists before, Tool.name tool = before +:+ ".").
Proof.
  split.
  - intros toolType name. unfold Swap.formattedName.
    destruct (Swap.baseName tool toolType); [| discriminate].
    intros [= <-]. apply formatToolName_no_dot.
  - intros name. unfold Allora.capabilityName, functionName.
    pose proof (last_split_dot_no_dot (Tool.name tool)) as Hlast.
    pose proof (last_split_dot_empty (Tool.name tool)) as Hempty.
    set (popped := List.last (split_dot (Tool.name tool)) EmptyString) in *.
    assert (Halias : forall key alias,
               object_lookup Allora.nameMap key = Own alias ->
               alias = "get_price_prediction").
    { intros key alias. unfold object_lookup, Allora.nameMap. cbn [find fst snd].
      destruct (String.eqb key "get_price_prediction"); [now intros [= <-] |].
      destruct (String.eqb key "price_prediction"); [now intros [= <-] |].
      destruct (existsb _ _); discriminate. }
    destruct (String.eqb_spec popped EmptyString) as [Hpop | Hpop].
    + assert (Hbase : (if String.eqb (Tool.name tool) EmptyString
                       then Tool.name tool else Tool.name tool) = Tool.name tool)
        by now destruct (String.eqb (Tool.name tool) EmptyString).
      rewrite Hbase.
      destruct (object_lookup Allora.nameMap (Tool.name tool)) as [alias| |] eqn:L;
        [| discriminate |].
      * rewrite (Halias _ _ L). intros [= <-]. discriminate.
      * intros [= <-] Hdot. split; [reflexivity |].
        destruct (Hempty Hpop) as [E | E]; [| exact E].
        rewrite E in Hdot. discriminate Hdot.
    + destruct (String.eqb_spec popped EmptyString) as [| _]; [contradiction |].
      destruct (object_lookup Allora.nameMap popped) as [alias| |] eqn:L;
        [| discriminate |].
      * rewrite (Halias _ _ L). intros [= <-]. discriminate.
      * intros [= <-] Hdot. rewrite Hlast in Hdot. discriminate.
Qed.

(** ** Setup of the swap driver *)

Lemma inherited_key_lookup (key : string) :
  In key object_prototype_keys ->
  String.eqb key EmptyString = false
  /\ object_lookup Swap.nameMap key = Inherited.
Proof.
  unfold object_prototype_keys. cbn [In].
  intros H; repeat (destruct H as [<- | H]; [split; reflexivity |]); destruct H.
Qed.

Lemma swap_baseName_inherited (tool : Tool.t) :
  In (functionName (Tool.name tool)) object_prototype_keys ->
  Swap.baseName tool Swap.jupiter = Swap.NameInherited.
Proof.
  intros H. destruct (inherited_key_lookup _ H) as [Hne Hlook].
  unfold Swap.baseName. cbn [Swap.is_jupiter]. now rewrite Hne, Hlook.
Qed.

Lemma swap_formattedName_error (tool : Tool.t) (toolType : Swap.ToolType) (e : Thrown) :
  Swap.formattedName tool toolType = inl e ->
  e = JsError "name.replace is not a function".
Proof.
  unfold Swap.formattedName. destruct (Swap.baseName tool toolType); now intros [= <-].
Qed.

Lemma map_toCapability_fails (tools : list Tool.t) (toolType : Swap.ToolType)
    (toolNameMap : gmap string Tool.t) (tool : Tool.t) (e : Thrown) :
  In tool tools ->
  Swap.formattedName tool toolType = inl e ->
  Swap.map_toCapability tools toolType toolNameMap
  = inl (JsError "name.replace is not a function").
Proof.
  revert toolNameMap. induction tools as [|first tools IH]; intros registry Hin Hfail;
    [destruct Hin |].
  cbn [Swap.map_toCapability]. unfold Swap.toCapability.
  destruct (Swap.formattedName first toolType) as [e' | name] eqn:Hfirst.
  - now rewrite (swap_formattedName_error _ _ _ Hfirst).
  - destruct Hin as [-> | Hin]; [congruence |].
    now rewrite (IH _ Hin Hfail).
Qed.

(** X11. A Jupiter tool whose function name is a name every object
    inherits from [Object.prototype] ([toString], [constructor], ...)
    cannot be built: the alias lookup finds the inherited member, the
    formatter throws on it, and the whole setup of the swap driver fails
    with that error whenever such a tool is among the Jupiter tools.
    The same tool taken as a DexScreener tool is built. *)
Theorem swap_inherited_function_name_fails (tool : Tool.t)
    (toolNameMap : gmap string Tool.t) :
  In (functionName (Tool.name tool)) object_prototype_keys ->
  Swap.toCapability tool Swap.jupiter toolNameMap
  = inl (JsError "name.replace is not a function")
  /\ (exists capability registry,
        Swap.toCapability tool Swap.dexscreener toolNameMap
        = inr (capability, registry))
  /\ (forall allTools,
        In tool allTools ->
        includes "jupiter" (toLowerCase (Tool.name tool))
        || includes "quote" (toLowerCase (Tool.name tool))
        || includes "swap" (toLowerCase (Tool.name tool)) = true ->
        Swap.setup allTools toolNameMap
        = inl (JsError "name.replace is not a function")).
Proof.
  intros H. pose proof (swap_baseName_inherited tool H) as Hbase.
  assert (Hfail : Swap.formattedName tool Swap.jupiter
                  = inl (JsError "name.replace is not a function")).
  { unfold Swap.formattedName. now rewrite Hbase. }
  split; [| split].
  - unfold Swap.toCapability. now rewrite Hfail.
  - unfold Swap.toCapability, Swap.formattedName, Swap.baseName.
    cbn [Swap.is_jupiter]. eauto.
  - intros allTools Hin Hsel. unfold Swap.setup.
    erewrite map_toCapability_fails; [reflexivity | | exact Hfail].
    apply filter_In. now split.
Qed.

Lemma map_toCapability_resolves (known tools : list Tool.t)
    (toolType : Swap.ToolType) :
  (forall tool, In tool tools -> In tool known) ->
  forall toolNameMap capabilities registry,
    Swap.map_toCapability tools toolType toolNameMap = inr (capabilities, registry) ->
    length capabilities = length tools
    /\ (forall name, (exists tool, toolNameMap !! name = Some tool /\ In tool known) ->
                     exists tool, registry !! name = Some tool /\ In tool known)
    /\ (forall capability, In capability capabilities ->
          exists tool, registry !! Capability.name capability = Some tool
                       /\ In tool known).
Proof.
  induction tools as [|first tools IH]; intros Hknown toolNameMap capabilities registry.
  - cbn [Swap.map_toCapability]. intros [= <- <-].
    split; [reflexivity |]. split; [auto | intros c []].
  - cbn [Swap.map_toCapability].
    destruct (Swap.toCapability first toolType toolNameMap) as [e | [c r1]] eqn:Hfirst;
      [discriminate |].
    destruct (Swap.map_toCapability tools toolType r1) as [e | [cs r2]] eqn:Hrest;
      [discriminate |].
    intros [= <- <-].
    destruct (swap_toCapability_run _ _ _ _ _ Hfirst) as (_ & _ & Hr1).
    destruct (IH (fun tool Hin => Hknown tool (or_intror Hin)) r1 cs r2 Hrest)
      as (Hlen & Hkeep & Hcaps).
    assert (Hstep : forall name,
               (exists tool, toolNameMap !! name = Some tool /\ In tool known) ->
               exists tool, r1 !! name = Some tool /\ In tool known).
    { intros name (tool & Hlook & Hin). subst r1.
      destruct (String.eqb_spec (Capability.name c) name) as [<- | Hne].
      - exists first. split; [apply lookup_insert_eq | apply Hknown; now left].
      - exists tool. split; [now rewrite lookup_insert_ne | exact Hin]. }
    split; [cbn [length]; now rewrite Hlen |]. split.
    + intros name H. apply Hkeep, Hstep, H.
    + intros capability [<- | Hin]; [| now apply Hcaps].
      apply Hkeep. exists first. subst r1.
      split; [apply lookup_insert_eq | apply Hknown; now left].
Qed.

(** X12. When the setup of the swap driver succeeds, it has built one
    capability for each tool it selected, and the registry resolves the
    name of every capability to one of the tools it was given: after a
    successful setup no capability can answer that its tool was not
    found. *)
Theorem swap_setup_resolves_every_capability (allTools : list Tool.t)
    (toolNameMap registry : gmap string Tool.t) (capabilities : list Capability.t) :
  Swap.setup allTools toolNameMap = inr (capabilities, registry) ->
  length capabilities
  = length (List.filter (fun tool =>
                           includes "jupiter" (toLowerCase (Tool.name tool))
                           || includes "quote" (toLowerCase (Tool.name tool))
                           || includes "swap" (toLowerCase (Tool.name tool))) allTools)
    + length (List.filter (fun tool =>
                             String.eqb (Tool.name tool) "dexscreener.search_pairs")
                (List.filter (fun tool => String.prefix "dexscreener" (Tool.name tool))
                   allTools))
  /\ forall capability, In capability capabilities ->
       exists tool, registry !! Capability.name capability = Some tool
                    /\ In tool allTools.
Proof.
  unfold Swap.setup.
  set (jupiterTools := List.filter _ allTools).
  set (filtered := List.filter _ (List.filter _ allTools)).
  destruct (Swap.map_toCapability jupiterTools Swap.jupiter toolNameMap)
    as [e | [cs1 r1]] eqn:H1; [discriminate |].
  destruct (Swap.map_toCapability filtered Swap.dexscreener r1)
    as [e | [cs2 r2]] eqn:H2; [discriminate |].
  intros [= <- <-].
  destruct (map_toCapability_resolves allTools jupiterTools Swap.jupiter
              ltac:(intros tool Hin; now apply filter_In in Hin as [? _])
              _ _ _ H1) as (Hlen1 & _ & Hcaps1).
  destruct (map_toCapability_resolves allTools filtered Swap.dexscreener
              ltac:(intros tool Hin; apply filter_In in Hin as [Hin _];
                    now apply filter_In in Hin as [? _])
              _ _ _ H2) as (Hlen2 & Hkeep2 & Hcaps2).
  split; [rewrite length_app; lia |].
  intros capability Hin. apply in_app_or in Hin as [Hin | Hin].
  - apply Hkeep2, Hcaps1, Hin.
  - apply Hcaps2, Hin.
Qed.

Lemma map_toCapability_last (tools : list Tool.t) (toolType : Swap.ToolType)
    (last : Tool.t) (name : string) :
  Swap.formattedName last toolType = inr name ->
  forall toolNameMap capabilities registry,
    Swap.map_toCapability (tools ++ [last]) toolType toolNameMap
    = inr (capabilities, registry) ->
    registry !! name = Some last.
Proof.
  intros Hname. induction tools as [|first tools IH];
    intros toolNameMap capabilities registry.
  - cbn [app Swap.map_toCapability]. unfold Swap.toCapability. rewrite Hname.
    intros [= _ <-]. apply lookup_insert_eq.
  - cbn [app Swap.map_toCapability].
    destruct (Swap.toCapability first toolType toolNameMap) as [e | [c r1]];
      [discriminate |].
    destruct (Swap.map_toCapability (tools ++ [last]) toolType r1)
      as [e | [cs r2]] eqn:Hrest; [discriminate |].
    intros [= _ <-]. now apply (IH r1 cs).
Qed.

(** X13. The swap driver builds its DexScreener capability after the
    Jupiter ones, so when the tools hold one named
    [dexscreener.search_pairs] and the setup succeeds, the name
    [search_pairs] resolves to a tool of that name, whatever Jupiter
    tool was registered under [search_pairs] before it. *)
Theorem swap_search_pairs_resolves_to_dexscreener (allTools : list Tool.t)
    (toolNameMap registry : gmap string Tool.t) (capabilities : list Capability.t)
    (pairs : Tool.t) :
  Swap.setup allTools toolNameMap = inr (capabilities, registry) ->
  In pairs allTools ->
  Tool.name pairs = "dexscreener.search_pairs" ->
  exists tool, registry !! "search_pairs" = Some tool
               /\ Tool.name tool = "dexscreener.search_pairs"
               /\ In tool allTools.
Proof.
  unfold Swap.setup.
  set (jupiterTools := List.filter _ allTools).
  set (filtered := List.filter _ (List.filter _ allTools)).
  destruct (Swap.map_toCapability jupiterTools Swap.jupiter toolNameMap)
    as [e | [cs1 r1]]; [discriminate |].
  destruct (Swap.map_toCapability filtered Swap.dexscreener r1)
    as [e | [cs2 r2]] eqn:H2; [discriminate |].
  intros [= <- <-] Hin Hname.
  assert (Hpairs : In pairs filtered).
  { apply filter_In. split; [apply filter_In; split; [exact Hin |] |];
      now rewrite Hname. }
  destruct (exists_last (l := filtered)) as (front & last & Hsplit);
    [intros E; now rewrite E in Hpairs |].
  assert (Hlast : In last filtered) by (rewrite Hsplit; apply in_or_app; right; now left).
  apply filter_In in Hlast as [Hlast Hlastname].
  apply filter_In in Hlast as [Hlast _].
  apply String.eqb_eq in Hlastname.
  exists last. split; [| now split].
  rewrite Hsplit in H2.
  apply (map_toCapability_last front Swap.dexscreener last "search_pairs" ltac:(
           unfold Swap.formattedName, Swap.baseName; rewrite Hlastname; reflexivity)
           r1 cs2 r2 H2).
Qed.

(** ** The Allora closure *)

(** X14. [run] of the Allora driver never throws either: it logs the
    call, executes the tool of the build, and completes normally or
    stays pending with the tool.  The error string of its [catch] names
    the tool by its provider name, dots included, not by the capability
    name; it is the answer after an [execute] that throws or completes
    with [undefined].  [null], a boolean, a number and a string are
    answered as text; after an array or an object, no error logged
    means that [run] answers what [JSON.stringify] returned. *)
Theorem allora_run_never_throws (tool : Tool.t) (capabilityName : string)
    (toolNameMap : gmap string Tool.t) (args : JsValue) :
  let result := Allora.run tool capabilityName toolNameMap args in
  (exists rest,
      fst result
      = ConsoleLog [JStr ("Running capability " +:+ capabilityName +:+ " with args:");
                    args]
          :: Executed tool args :: rest)
  /\ (forall error, snd result <> Throw error)
  /\ match Tool.execute tool args with
     | Throw error =>
         snd result
         = Normal (JStr ("An error occurred while running " +:+ Tool.name tool
                           +:+ ": " +:+ error_text error))
     | Pending => snd result = Pending
     | Normal JUndefined =>
         snd result
         = Normal (JStr ("An error occurred while running " +:+ Tool.name tool
                           +:+ ": " +:+ cannot_read_message "undefined" "toString"))
     | Normal JNull => snd result = Normal (JStr "null")
     | Normal (JBool b) => snd result = Normal (JStr (if b then "true" else "false"))
     | Normal (JNum number) => snd result = Normal (JStr (number_toString number))
     | Normal (JStr s) => snd result = Normal (JStr s)
     | Normal ((JArr _ | JObj _) as response) =>
         console_errors (fst result) = [] ->
         snd result = Normal (JSON_stringify response)
     end.
Proof.
  intros result. subst result. unfold Allora.run.
  unfold try_catch, call_execute, normalize, bind, emit, lift, throw, ret.
  destruct (Tool.execute tool args) as [response | e |]; cbn [app fst snd];
    [| split; [eexists; reflexivity | split; [discriminate | reflexivity]]
     | split; [eexists; reflexivity | split; [discriminate | reflexivity]]].
  destruct response as [| |[]|number|s|elems|props];
    cbn [typeof toString app fst snd];
    (split; [eexists; reflexivity | split; [discriminate |]]);
    try reflexivity; intros _; reflexivity.
Qed.

(** ** The store of the CoinGecko driver *)

Lemma descLength_truncate (tool : Tool.t) :
  (1000 <? Coingecko.descLength tool) = true ->
  (1000 <? Coingecko.descLength (Coingecko.truncate tool)) = true
  /\ Coingecko.truncate (Coingecko.truncate tool) = Coingecko.truncate tool.
Proof.
  intros H. apply Nat.ltb_lt in H.
  assert (Hlong : 1000 < String.length (Tool.description tool)).
  { unfold Coingecko.descLength in H.
    destruct (String.eqb (Tool.description tool) EmptyString); [lia | exact H]. }
  split; [| now apply truncate_idempotent].
  apply Nat.ltb_lt. rewrite descLength_long;
    rewrite truncate_description_length by exact Hlong; lia.
Qed.

(** What the loop leaves in the store: a tool of the list whose
    description is long is cut, every other object is as it was. *)
Lemma check_descriptions_lookup (tools : list nat) (heap : gmap nat Tool.t)
    (ref : nat) :
  Coingecko.check_descriptions tools heap !! ref
  = match heap !! ref with
    | Some tool =>
        Some (if existsb (Nat.eqb ref) tools && (1000 <? Coingecko.descLength tool)
              then Coingecko.truncate tool else tool)
    | None => None
    end.
Proof.
  revert heap. induction tools as [|r tools IH]; intros heap.
  - cbn. now destruct (heap !! ref).
  - cbn [Coingecko.check_descriptions fold_left existsb].
    change (fold_left Coingecko.check_description tools ?h)
      with (Coingecko.check_descriptions tools h).
    rewrite IH. destruct (Nat.eqb_spec ref r) as [<- | Hne].
    + unfold Coingecko.check_description.
      destruct (heap !! ref) as [tool|] eqn:H; [| now rewrite H].
      destruct (1000 <? Coingecko.descLength tool) eqn:Hlong.
      * rewrite lookup_insert_eq.
        destruct (descLength_truncate tool Hlong) as [-> ->].
        now destruct (existsb (Nat.eqb ref) tools).
      * rewrite H, Hlong, !andb_false_r. reflexivity.
    + rewrite check_description_other by exact Hne. reflexivity.
Qed.

(** X15. After the setup of the CoinGecko driver every capability has a
    description of at most 1015 characters, and a description of at
    most 1000 characters is the tool's own, unchanged. *)
Theorem coingecko_descriptions_are_bounded (allTools : list nat)
    (heap : gmap nat Tool.t) (toolNameMap : gmap string nat)
    (i ref : nat) (tool : Tool.t) :
  let built := Coingecko.setup allTools heap toolNameMap in
  Coingecko.tools built !! i = Some ref ->
  heap !! ref = Some tool ->
  exists capability,
    Coingecko.capabilities built !! i = Some (Some capability)
    /\ String.length (Capability.description capability) <= 1015
    /\ (String.length (Tool.description tool) <= 1000 ->
        Capability.description capability = Tool.description tool)
    /\ Capability.schema capability = Tool.parameters tool.
Proof.
  intros built Hi Hheap. subst built. unfold Coingecko.setup in *.
  cbn [Coingecko.tools Coingecko.capabilities] in *.
  set (tools := List.filter (Coingecko.kept heap) allTools) in *.
  pose proof (check_descriptions_lookup tools heap ref) as Hstore.
  rewrite Hheap in Hstore.
  rewrite list_lookup_fmap, Hi. cbn [fmap option_fmap option_map].
  unfold Coingecko.toCapability. rewrite Hstore.
  eexists. split; [reflexivity |]. cbn [Capability.description Capability.schema].
  assert (Hlen : Coingecko.descLength tool <= String.length (Tool.description tool)).
  { unfold Coingecko.descLength.
    destruct (String.eqb (Tool.description tool) EmptyString); lia. }
  destruct (existsb (Nat.eqb ref) tools && (1000 <? Coingecko.descLength tool)) eqn:E.
  - apply andb_prop in E as [_ E]. apply Nat.ltb_lt in E.
    split; [| split; [lia | reflexivity]].
    rewrite truncate_description_length; lia.
  - split; [| split; reflexivity].
    apply andb_false_iff in E as [E | E].
    + assert (Hin : In ref tools).
      { apply list_elem_of_In. eapply list_elem_of_lookup_2. exact Hi. }
      assert (existsb (Nat.eqb ref) tools = true)
        by (apply existsb_exists; exists ref; split; [exact Hin | apply Nat.eqb_refl]).
      congruence.
    + apply Nat.ltb_ge in E. unfold Coingecko.descLength in E.
      destruct (String.eqb_spec (Tool.description tool) EmptyString) as [-> | _];
        [cbn; lia | lia].
Qed.

(** X16. The setup of the CoinGecko driver changes descriptions and
    nothing else: the store holds the same objects under the same
    references, each with its name, schema and [execute] as before, and
    an object that is not among the kept tools (one whose name contains
    [get_chain], for instance) is left as it was, however long its
    description. *)
Theorem coingecko_setup_changes_descriptions_only (allTools : list nat)
    (heap : gmap nat Tool.t) (toolNameMap : gmap string nat) (ref : nat) :
  let built := Coingecko.setup allTools heap toolNameMap in
  (is_Some (Coingecko.store built !! ref) <-> is_Some (heap !! ref))
  /\ (forall stored, Coingecko.store built !! ref = Some stored ->
        exists tool,
          heap !! ref = Some tool
          /\ Tool.name stored = Tool.name tool
          /\ Tool.parameters stored = Tool.parameters tool
          /\ Tool.execute stored = Tool.execute tool)
  /\ (~ In ref (Coingecko.tools built) -> Coingecko.store built !! ref = heap !! ref).
Proof.
  intros built. subst built. unfold Coingecko.setup.
  cbn [Coingecko.tools Coingecko.store].
  set (tools := List.filter (Coingecko.kept heap) allTools).
  rewrite check_descriptions_lookup.
  destruct (heap !! ref) as [tool|] eqn:Hheap.
  - split; [split; eauto |]. split.
    + intros stored [= <-]. exists tool. split; [reflexivity |].
      now destruct (existsb (Nat.eqb ref) tools && (1000 <? Coingecko.descLength tool)).
    + intros Hnotin.
      destruct (existsb (Nat.eqb ref) tools) eqn:E; [| reflexivity].
      apply existsb_exists in E as (r & Hr & Heq). apply Nat.eqb_eq in Heq.
      subst r. contradiction.
  - split; [split; intros [x Hx]; discriminate |].
    split; [discriminate | reflexivity].
Qed.

(** X17. Running the long-description loop a second time changes
    nothing: a description already cut is cut to the same text. *)
Theorem check_descriptions_idempotent (tools : list nat) (heap : gmap nat Tool.t) :
  Coingecko.check_descriptions tools (Coingecko.check_descriptions tools heap)
  = Coingecko.check_descriptions tools heap.
Proof.
  apply map_eq. intros ref. rewrite !check_descriptions_lookup.
  destruct (heap !! ref) as [tool|]; [| reflexivity]. f_equal.
  destruct (existsb (Nat.eqb ref) tools); cbn [andb]; [| reflexivity].
  destruct (1000 <? Coingecko.descLength tool) eqn:Hlong.
  - now destruct (descLength_truncate tool Hlong) as [-> ->].
  - now rewrite Hlong.
Qed.

Lemma coingecko_register_other (heap : gmap nat Tool.t) (tools : list nat)
    (toolNameMap : gmap string nat) (name : string) :
  (forall ref tool, In ref tools -> heap !! ref = Some tool ->
     formatToolName (Tool.name tool) <> name) ->
  Coingecko.register_tools heap tools toolNameMap !! name = toolNameMap !! name.
Proof.
  revert toolNameMap. induction tools as [|r tools IH]; intros toolNameMap H;
    [reflexivity |].
  cbn [Coingecko.register_tools fold_left].
  change (fold_left ?f tools ?m) with (Coingecko.register_tools heap tools m).
  rewrite IH by (intros ref tool Hin; apply H; now right).
  destruct (heap !! r) as [tool|] eqn:Hr; [| reflexivity].
  apply lookup_insert_ne. apply (H r tool); [now left | exact Hr].
Qed.

Lemma coingecko_register_last (heap : gmap nat Tool.t) (before after : list nat)
    (ref : nat) (tool : Tool.t) (toolNameMap : gmap string nat) :
  heap !! ref = Some tool ->
  (forall later other, In later after -> heap !! later = Some other ->
     formatToolName (Tool.name other) <> formatToolName (Tool.name tool)) ->
  Coingecko.register_tools heap (before ++ ref :: after) toolNameMap
    !! formatToolName (Tool.name tool) = Some ref.
Proof.
  intros Href Hafter. unfold Coingecko.register_tools.
  rewrite fold_left_app. cbn [fold_left]. rewrite Href.
  change (fold_left ?f after ?m) with (Coingecko.register_tools heap after m).
  rewrite coingecko_register_other by exact Hafter. apply lookup_insert_eq.
Qed.

(** X18. Cutting a description does not change what a capability of the
    CoinGecko driver does.  The registry holds references, so after the
    setup the name of a kept tool that no later kept tool shadows
    resolves to the object in the store, cut or not, whose [execute] is
    the tool's own; a call completes as a call of the tool registered
    with its full description does. *)
Theorem coingecko_run_unchanged_by_truncation (allTools before after : list nat)
    (heap : gmap nat Tool.t) (toolNameMap : gmap string nat)
    (ref : nat) (tool : Tool.t) (args : JsValue) :
  let built := Coingecko.setup allTools heap toolNameMap in
  let name := formatToolName (Tool.name tool) in
  let registry := Coingecko.tools_of (Coingecko.store built) (Coingecko.registry built) in
  Coingecko.tools built = before ++ ref :: after ->
  heap !! ref = Some tool ->
  (forall later other, In later after -> heap !! later = Some other ->
     formatToolName (Tool.name other) <> name) ->
  exists stored,
    Coingecko.store built !! ref = Some stored
    /\ registry !! name = Some stored
    /\ Tool.execute stored = Tool.execute tool
    /\ executed (fst (Coingecko.run name registry args)) = [(stored, args)]
    /\ snd (Coingecko.run name registry args)
       = snd (Coingecko.run name (<[name := tool]> ∅) args).
Proof.
  intros built name registry Htools Hheap Hafter. subst built name registry.
  unfold Coingecko.setup in *. cbn [Coingecko.tools Coingecko.store Coingecko.registry] in *.
  set (tools := List.filter (Coingecko.kept heap) allTools) in *.
  set (heap' := Coingecko.check_descriptions tools heap).
  pose proof (check_descriptions_lookup tools heap ref) as Hstore.
  rewrite Hheap in Hstore. fold heap' in Hstore.
  set (stored := if existsb (Nat.eqb ref) tools && (1000 <? Coingecko.descLength tool)
                 then Coingecko.truncate tool else tool) in *.
  assert (Hname : Tool.name stored = Tool.name tool)
    by (subst stored; now destruct (_ && _)).
  assert (Hexec : Tool.execute stored = Tool.execute tool)
    by (subst stored; now destruct (_ && _)).
  assert (Hreg : Coingecko.register_tools heap' tools toolNameMap
                   !! formatToolName (Tool.name tool) = Some ref).
  { rewrite Htools, <- Hname. apply coingecko_register_last; [exact Hstore |].
    intros later other Hin Hlater. rewrite Hname.
    pose proof (check_descriptions_lookup tools heap later) as Hl.
    fold heap' in Hl. rewrite Hlater in Hl.
    destruct (heap !! later) as [original|] eqn:Ho; [| discriminate].
    injection Hl as ->.
    assert (Tool.name (if existsb (Nat.eqb later) tools
                          && (1000 <? Coingecko.descLength original)
                       then Coingecko.truncate original else original)
            = Tool.name original) as ->
      by now destruct (existsb (Nat.eqb later) tools
                       && (1000 <? Coingecko.descLength original)).
    now apply (Hafter later original). }
  assert (Hview : Coingecko.tools_of heap'
                    (Coingecko.register_tools heap' tools toolNameMap)
                    !! formatToolName (Tool.name tool) = Some stored).
  { unfold Coingecko.tools_of. rewrite lookup_omap, Hreg. exact Hstore. }
  exists stored. split; [exact Hstore |]. split; [exact Hview |].
  split; [exact Hexec |]. unfold Coingecko.run. split.
  - now apply dispatch_registered.
  - rewrite (dispatch_outcome _ _ _ _ Hview).
    rewrite (dispatch_outcome _ _ _ tool (lookup_insert_eq _ _ _)).
    now rewrite Hexec.
Qed.

(** ** Startup *)

(** X19. The environment checks let a driver start exactly when every
    variable it requires is set to a non-empty string; otherwise the
    first check that fails, in the order of the source, throws the
    error that names its variable, and no later variable is looked at. *)
Theorem require_env_first_missing (keys : list string) (env : gmap string string) :
  (Startup.require_env keys env = None
   <-> Forall (fun key => exists value, env !! key = Some value
                                        /\ value <> EmptyString) keys)
  /\ (forall error, Startup.require_env keys env = Some error ->
        exists before key after,
          keys = before ++ key :: after
          /\ error = JsError (key +:+ " is not set")
          /\ Forall (fun key => exists value, env !! key = Some value
                                              /\ value <> EmptyString) before
          /\ (env !! key = None \/ env !! key = Some EmptyString)).
Proof.
  induction keys as [|key keys [IHnone IHsome]].
  - split; [split; [constructor | reflexivity] | discriminate].
  - cbn [Startup.require_env].
    destruct (env !! key) as [value|] eqn:Hkey.
    + destruct (String.eqb_spec value EmptyString) as [-> | Hvalue].
      * split.
        -- split; [discriminate |]. intros H. inversion H as [|? ? (v & Hv & Hne) _].
           rewrite Hkey in Hv. injection Hv as <-. now destruct Hne.
        -- intros error [= <-]. exists [], key, keys.
           split; [reflexivity |]. split; [reflexivity |].
           split; [constructor | now right].
      * split.
        -- rewrite IHnone. split; intros H.
           ++ constructor; [now exists value | exact H].
           ++ now inversion H.
        -- intros error H.
           destruct (IHsome error H) as (before & k & after & -> & -> & Hb & Hk).
           exists (key :: before), k, after.
           split; [reflexivity |]. split; [reflexivity |].
           split; [constructor; [now exists value | exact Hb] | exact Hk].
    + split.
      * split; [discriminate |]. intros H. inversion H as [|? ? (v & Hv & _) _].
        rewrite Hkey in Hv. discriminate.
      * intros error [= <-]. exists [], key, keys.
        split; [reflexivity |]. split; [reflexivity |].
        split; [constructor | now left].
Qed.

(** ** Further properties of the request observer *)

(** X20. When the first argument is a truthy value that is no object (a
    non-empty string, a non-zero number, [true]), the test on it throws
    before the delegation: the installed function rejects, the original
    call is not made and nothing is logged. *)
Theorem create_rejects_primitive_body
    (originalCreateChatCompletion : list JsValue -> Completion JsValue)
    (args : list JsValue) :
  truthy (hd JUndefined args) = true ->
  typeof (hd JUndefined args) <> "object" ->
  exists error,
    RequestObserver.create originalCreateChatCompletion args = ([], Throw error)
    /\ in_operator "tools" (hd JUndefined args) = inl error
    /\ delegations (fst (RequestObserver.create originalCreateChatCompletion args)) = [].
Proof.
  intros Htruthy Htype. unfold RequestObserver.create. rewrite Htruthy.
  destruct (hd JUndefined args) as [| |b|n|s|elems|props]; cbn [typeof] in Htype;
    try discriminate; try (now destruct Htype).
  - destruct b; [| discriminate]. eexists. repeat split.
  - eexists. repeat split.
  - eexists. repeat split.
Qed.

(** X21. When the request body offers tools that are JSON data, the
    observer prints, before it delegates, the heading and then a text
    that reads back to exactly the tool list of the body. *)
Theorem create_logs_the_offered_tools
    (originalCreateChatCompletion : list JsValue -> Completion JsValue)
    (body : list (string * JsValue)) (rest : list JsValue) (tools : JsValue) :
  has_key "tools" body = true ->
  get_property "tools" body = tools ->
  json_data tools = true ->
  exists text,
    fst (RequestObserver.create originalCreateChatCompletion (JObj body :: rest))
    = [ConsoleLog [JStr "--- OpenAI Request (Tools): ---"];
       ConsoleLog [JStr text];
       Delegated (JObj body :: rest)]
    /\ JSON_parse text = Some tools.
Proof.
  intros Hkey Htools Hdata.
  destruct (JSON_parse_stringify tools Hdata) as (text & Htext & Hparse).
  exists text. split; [| exact Hparse].
  unfold RequestObserver.create, RequestObserver.call_original.
  cbn [hd truthy in_operator RequestObserver.member]. unfold has_key in Hkey.
  rewrite Hkey, Htools, Htext. reflexivity.
Qed.

(** ** Instances of the properties above *)

Lemma dexscreener_distinct_names_resolve_to_own_tool_witness :
  snd (Dexscreener.setup [pairs_tool_a; swap_tool_a; token_pairs_tool] ∅)
    !! "dexscreener_search_pairs"
  = Some pairs_tool_a
  /\ executed (fst (Capability.run (Dexscreener.toCapability pairs_tool_a)
                      (snd (Dexscreener.setup
                              [pairs_tool_a; swap_tool_a; token_pairs_tool] ∅))
                      (JObj [])))
     = [(pairs_tool_a, JObj [])].
Proof.
  apply (dexscreener_distinct_names_resolve_to_own_tool
           [pairs_tool_a; swap_tool_a; token_pairs_tool] ∅ pairs_tool_a (JObj [])).
  - apply (bool_decide_unpack _). vm_compute. exact I.
  - left. reflexivity.
Defined.

Lemma functionName_is_last_segment_witness :
  functionName "search_pairs" = "search_pairs"
  /\ functionName ("dexscreener" +:+ ".") = "dexscreener" +:+ "."
  /\ ("search_pairs" <> EmptyString ->
      functionName ("dexscreener" +:+ String "." "search_pairs") = "search_pairs").
Proof.
  apply (functionName_is_last_segment "dexscreener" "search_pairs"). reflexivity.
Defined.

Lemma swap_inherited_function_name_fails_witness :
  Swap.toCapability inherited_name_tool Swap.jupiter ∅
  = inl (JsError "name.replace is not a function")
  /\ Swap.setup [swap_tool_a; inherited_name_tool] ∅
     = inl (JsError "name.replace is not a function").
Proof.
  destruct (swap_inherited_function_name_fails inherited_name_tool ∅)
    as (Hbuild & _ & Hsetup).
  - do 8 right. left. reflexivity.
  - split; [exact Hbuild |]. apply Hsetup; [right; left; reflexivity | reflexivity].
Defined.

Lemma swap_setup_resolves_every_capability_witness :
  length [jupiter_pairs_capability; dexscreener_pairs_capability] = 1 + 1
  /\ exists tool,
       (<["search_pairs" := pairs_tool_a]> (<["search_pairs" := jupiter_pairs_tool]> ∅)
          : gmap string Tool.t)
         !! Capability.name jupiter_pairs_capability = Some tool
       /\ In tool [jupiter_pairs_tool; pairs_tool_a].
Proof.
  destruct (swap_setup_resolves_every_capability
              [jupiter_pairs_tool; pairs_tool_a] ∅
              (<["search_pairs" := pairs_tool_a]>
                 (<["search_pairs" := jupiter_pairs_tool]> ∅))
              [jupiter_pairs_capability; dexscreener_pairs_capability] eq_refl)
    as [Hlen Hall].
  split; [exact Hlen |]. apply Hall. left. reflexivity.
Defined.

Lemma swap_search_pairs_resolves_to_dexscreener_witness :
  exists tool,
    (<["search_pairs" := pairs_tool_a]> (<["search_pairs" := jupiter_pairs_tool]> ∅)
       : gmap string Tool.t)
      !! "search_pairs" = Some tool
    /\ Tool.name tool = "dexscreener.search_pairs"
    /\ In tool [jupiter_pairs_tool; pairs_tool_a].
Proof.
  apply (swap_search_pairs_resolves_to_dexscreener
           [jupiter_pairs_tool; pairs_tool_a] ∅ _
           [jupiter_pairs_capability; dexscreener_pairs_capability] pairs_tool_a).
  - reflexivity.
  - right. left. reflexivity.
  - reflexivity.
Defined.

Lemma coingecko_descriptions_are_bounded_witness :
  exists capability,
    Coingecko.capabilities (Coingecko.setup [3; 7] (<[3 := trending_tool]> (<[7 := verbose_tool]> ∅)) ∅) !! 0
    = Some (Some capability)
    /\ String.length (Capability.description capability) <= 1015
    /\ (String.length (Tool.description trending_tool) <= 1000 ->
        Capability.description capability = Tool.description trending_tool)
    /\ Capability.schema capability = Tool.parameters trending_tool.
Proof.
  apply (coingecko_descriptions_are_bounded [3; 7]
           (<[3 := trending_tool]> (<[7 := verbose_tool]> ∅)) ∅ 0 3 trending_tool);
    reflexivity.
Defined.

Lemma coingecko_run_unchanged_by_truncation_witness :
  exists stored,
    Coingecko.store (Coingecko.setup [7] (<[7 := verbose_tool]> ∅) ∅) !! 7 = Some stored
    /\ Coingecko.tools_of (Coingecko.store (Coingecko.setup [7] (<[7 := verbose_tool]> ∅) ∅))
         (Coingecko.registry (Coingecko.setup [7] (<[7 := verbose_tool]> ∅) ∅))
         !! formatToolName (Tool.name verbose_tool) = Some stored
    /\ Tool.execute stored = Tool.execute verbose_tool
    /\ executed (fst (Coingecko.run (formatToolName (Tool.name verbose_tool))
                        (Coingecko.tools_of
                           (Coingecko.store (Coingecko.setup [7] (<[7 := verbose_tool]> ∅) ∅))
                           (Coingecko.registry (Coingecko.setup [7] (<[7 := verbose_tool]> ∅) ∅)))
                        (JObj [])))
       = [(stored, JObj [])]
    /\ snd (Coingecko.run (formatToolName (Tool.name verbose_tool))
              (Coingecko.tools_of
                 (Coingecko.store (Coingecko.setup [7] (<[7 := verbose_tool]> ∅) ∅))
                 (Coingecko.registry (Coingecko.setup [7] (<[7 := verbose_tool]> ∅) ∅)))
              (JObj []))
       = snd (Coingecko.run (formatToolName (Tool.name verbose_tool))
                (<[formatToolName (Tool.name verbose_tool) := verbose_tool]> ∅) (JObj [])).
Proof.
  apply (coingecko_run_unchanged_by_truncation [7] [] [] (<[7 := verbose_tool]> ∅) ∅
           7 verbose_tool (JObj [])).
  - reflexivity.
  - reflexivity.
  - intros later other [].
Defined.

Lemma create_rejects_primitive_body_witness :
  exists error,
    RequestObserver.create (fun _ => Normal (JStr "completion")) [JStr "hello"]
    = ([], Throw error)
    /\ in_operator "tools" (hd JUndefined [JStr "hello"]) = inl error
    /\ delegations (fst (RequestObserver.create (fun _ => Normal (JStr "completion"))
                           [JStr "hello"])) = [].
Proof.
  apply (create_rejects_primitive_body (fun _ => Normal (JStr "completion"))
           [JStr "hello"]).
  - reflexivity.
  - discriminate.
Defined.

Lemma create_logs_the_offered_tools_witness :
  exists text,
    fst (RequestObserver.create (fun _ => Normal (JStr "completion"))
           [JObj request_body])
    = [ConsoleLog [JStr "--- OpenAI Request (Tools): ---"];
       ConsoleLog [JStr text];
       Delegated [JObj request_body]]
    /\ JSON_parse text = Some (get_property "tools" request_body).
Proof.
  apply (create_logs_the_offered_tools (fun _ => Normal (JStr "completion"))
           request_body [] (get_property "tools" request_body)); reflexivity.
Defined.
